(** * xcore: the synchronisation engine

    A shallow embedding of the sync loop ([Client.Sync]), of the default
    reconciliation ([DefaultSyncer.ProcessResponse]) and of the frame state
    table ([Frame]) of the Go package [xcore], with the properties the
    specification states about them.

    Conventions of the embedding:
    - a Go [map[string]T] is a [gmap string T]; reading a missing key gives
      the zero value, which is written out at each read;
    - a [*string] that may be nil is an [option string];
    - a [uint32] is a [Z] with its wrap-around written out;
    - [range] over a map visits the keys in an order Go leaves unspecified:
      the order is a parameter, constrained to be a permutation of the map;
    - a panic is an outcome [Panic r] of the execution monad, [r] being the
      text the verb [%s] prints for the panic value;
    - the loop variable of a [for ... range] is a fresh variable at each
      iteration (Go 1.22), so a stored [*Event] is modelled by its value. *)

From stdpp Require Import base option list gmap strings fin_maps.
From Stdlib Require Import ZArith NArith Lia.

#[local] Set Warnings "-register-all".

Open Scope Z_scope.
Open Scope string_scope.
Open Scope list_scope.

(** ** Events *)

(** What [encoding/json] decodes into an [interface{}]. *)
Inductive json : Type :=
| JNull
| JBool (b : bool)
| JNumber (n : Z)
| JString (s : string)
| JArray (items : list json)
| JObject (fields : list (string * json)).

(** The type assertion [v.(string)] on the result of a map read:
    [Some s] when the key holds a string, [None] when the key is missing or
    holds anything else ([ok = false]). *)
Definition assert_string (v : option json) : option string :=
  match v with
  | Some (JString s) => Some s
  | _ => None
  end.

(** Modelled from the spec: the declaration of [Event] is not among the
    sources. The sources use the fields [Type], [StateKey] (a [*string]),
    [FrameID] and [Content] (a map read at the key "membership" and tested
    with a type assertion); the specification names the sender and the
    protocol metadata (origin timestamp, event id, redaction marker).
    [Type] is a reserved word here, hence [Type_]. *)
Record Event : Type := mkEvent {
  StateKey : option string;
  Sender : string;
  Type_ : string;
  Timestamp : Z;
  ID : string;
  FrameID : string;
  Redacts : string;
  Content : gmap string json
}.

(** [event.FrameID = frameID] *)
Definition set_FrameID (frameID : string) (e : Event) : Event :=
  {| StateKey := StateKey e; Sender := Sender e; Type_ := Type_ e;
     Timestamp := Timestamp e; ID := ID e; FrameID := frameID;
     Redacts := Redacts e; Content := Content e |}.

(** ** Execution outcomes *)

(** A Go call either returns or panics. *)
Inductive result (A : Type) : Type :=
| Ok (a : A)
| Panic (r : string).
Arguments Ok {A} a.
Arguments Panic {A} r.

(** What [%s] prints for the run-time error of dereferencing a nil pointer. *)
Definition nil_dereference : string :=
  "runtime error: invalid memory address or nil pointer dereference".

(** ** frame.go *)

(** The state table: event type, then state key, then the event. *)
Record Frame : Type := mkFrame {
  Frame_ID : string;
  State : gmap string (gmap string Event)
}.

(** [NewFrame] *)
Definition NewFrame (frameID : string) : Frame :=
  {| Frame_ID := frameID; State := ∅ |}.

(** [Frame.UpdateState]. The inner map is created first when the type is
    new; then [*event.StateKey] is read, which panics on a nil state key,
    leaving the inner map that was just created in place. *)
Definition UpdateState (frame : Frame) (event : Event) : result unit * Frame :=
  let state1 :=
    match State frame !! Type_ event with
    | Some _ => State frame
    | None => <[Type_ event := ∅]> (State frame)
    end in
  match StateKey event with
  | None => (Panic nil_dereference, {| Frame_ID := Frame_ID frame; State := state1 |})
  | Some key =>
      (Ok tt,
       {| Frame_ID := Frame_ID frame;
          State := <[Type_ event := <[key := event]> (default ∅ (state1 !! Type_ event))]> state1 |})
  end.

(** [Frame.GetStateEvent]: reading a missing type gives a nil inner map,
    and reading a nil map gives nil. *)
Definition GetStateEvent (frame : Frame) (eventType stateKey : string) : option Event :=
  let stateEventMap := default ∅ (State frame !! eventType) in
  stateEventMap !! stateKey.

(** [Frame.GetMembershipState] *)
Definition GetMembershipState (frame : Frame) (userID : string) : string :=
  let state := "leave" in
  match GetStateEvent frame "m.frame.member" userID with
  | Some event =>
      match Content event !! "membership" with
      | Some membershipState =>
          match assert_string (Some membershipState) with
          | Some mState => mState
          | None => state
          end
      | None => state
      end
  | None => state
  end.

(** ** store.go *)

Record InMemoryStore : Type := mkStore {
  Filters : gmap string string;
  NextBatch : gmap string string;
  Frames : gmap string Frame
}.

Definition NewInMemoryStore : InMemoryStore :=
  {| Filters := ∅; NextBatch := ∅; Frames := ∅ |}.

Module InMemory.

Definition SaveFilterID (userID filterID : string) (s : InMemoryStore) : InMemoryStore :=
  {| Filters := <[userID := filterID]> (Filters s);
     NextBatch := NextBatch s; Frames := Frames s |}.

Definition LoadFilterID (userID : string) (s : InMemoryStore) : string :=
  default "" (Filters s !! userID).

Definition SaveNextBatch (userID nextBatchToken : string) (s : InMemoryStore) : InMemoryStore :=
  {| Filters := Filters s;
     NextBatch := <[userID := nextBatchToken]> (NextBatch s);
     Frames := Frames s |}.

Definition LoadNextBatch (userID : string) (s : InMemoryStore) : string :=
  default "" (NextBatch s !! userID).

Definition SaveFrame (frame : Frame) (s : InMemoryStore) : InMemoryStore :=
  {| Filters := Filters s; NextBatch := NextBatch s;
     Frames := <[Frame_ID frame := frame]> (Frames s) |}.

Definition LoadFrame (frameID : string) (s : InMemoryStore) : option Frame :=
  Frames s !! frameID.

End InMemory.

(** ** The sync response (frame.go, [RespSync]) *)

(** The entries of the three buckets. [Limited] and [PrevBatch] of a
    timeline are carried by the wire format and read by no code here. *)
Record JoinedFrame : Type := mkJoined {
  JoinState : list Event;
  JoinTimeline : list Event;
  JoinEphemeral : list Event
}.

Record InvitedFrame : Type := mkInvited {
  InviteState : list Event
}.

Record LeftFrame : Type := mkLeft {
  LeaveState : list Event;
  LeaveTimeline : list Event
}.

Record RespSync : Type := mkResp {
  Resp_NextBatch : string;
  AccountData : list Event;
  Presence : list Event;
  Leave : gmap string LeftFrame;
  Join : gmap string JoinedFrame;
  Invite : gmap string InvitedFrame
}.

(** [delete(resp.Frames.Join, frameID); delete(resp.Frames.Invite, frameID)] *)
Definition delete_frame (frameID : string) (resp : RespSync) : RespSync :=
  {| Resp_NextBatch := Resp_NextBatch resp;
     AccountData := AccountData resp;
     Presence := Presence resp;
     Leave := Leave resp;
     Join := delete frameID (Join resp);
     Invite := delete frameID (Invite resp) |}.

(** Go errors, by their message. *)
Definition error : Type := string.

(** The line feed of the format string. *)
Definition LF : string := String (Ascii.ascii_of_nat 10) EmptyString.

(** ** The default syncer *)

(** What the syncer does to its collaborators, in the order it does it. *)
Inductive effect : Type :=
| EffLoadFrame (frameID : string)              (* Store.LoadFrame(frameID) *)
| EffSaveFrame (frame : Frame)                 (* Store.SaveFrame(frame) *)
| EffUpdateState (frameID : string) (event : Event)
                                               (* frame.UpdateState(&event) on the frame held at frameID *)
| EffNotify (index : nat) (event : Event).     (* the index-th listener of event.Type is called *)

(** The frame an effect is about. *)
Definition effect_frame (eff : effect) : string :=
  match eff with
  | EffLoadFrame frameID => frameID
  | EffSaveFrame frame => Frame_ID frame
  | EffUpdateState frameID _ => frameID
  | EffNotify _ event => FrameID event
  end.

Module DefaultSyncer.
Section WithListeners.

(** The memory the registered callbacks close over. A callback is opaque
    code of the subscriber: it returns or panics, and may change its own
    memory; it is taken not to write to the store or to the event. *)
Context {L : Type}.

(** What [debug.Stack()] prints at the recovery point. *)
Variable debug_Stack : string.

(** The order in which [range] visits a map. *)
Variable range : forall A : Type, gmap string A -> list (string * A).

Definition OnEventListener : Type := Event -> L -> result unit * L.

(** [DefaultSyncer]. The field [Store] is a reference to the store object,
    which lives in the heap below: the in-memory store, which [NewClient]
    hands to the syncer and which keeps the frames by pointer. *)
Record t : Type := mkSyncer {
  UserID : string;
  listeners : gmap string (list OnEventListener)
}.

Record heap : Type := mkHeap {
  store : InMemoryStore;
  closures : L
}.

(** [NewDefaultSyncer] *)
Definition NewDefaultSyncer (userID : string) : t :=
  {| UserID := userID; listeners := ∅ |}.

(** [DefaultSyncer.OnEventType] *)
Definition OnEventType (s : t) (eventType : string)
    (callback : OnEventListener) : t :=
  let listeners1 :=
    match listeners s !! eventType with
    | Some _ => listeners s
    | None => <[eventType := []]> (listeners s)
    end in
  {| UserID := UserID s;
     listeners := <[eventType := default [] (listeners1 !! eventType) ++ [callback]]> listeners1 |}.

(** *** The execution monad: heap, outcome, effects *)

Definition exec (A : Type) : Type := heap -> result A * heap * list effect.

Definition ret {A : Type} (a : A) : exec A := fun h => (Ok a, h, []).

Definition bind {A B : Type} (m : exec A) (k : A -> exec B) : exec B :=
  fun h =>
    match m h with
    | (Ok a, h1, t1) =>
        match k a h1 with
        | (r, h2, t2) => (r, h2, t1 ++ t2)
        end
    | (Panic r, h1, t1) => (Panic r, h1, t1)
    end.

#[global] Instance exec_ret : MRet exec := @ret.
#[global] Instance exec_bind : MBind exec := fun A B k m => bind m k.

(** [for _, x := range l { body }] over a slice *)
Fixpoint for_each {A : Type} (l : list A) (body : A -> exec unit) : exec unit :=
  match l with
  | [] => ret tt
  | x :: rest => body x;; for_each rest body
  end.

(** [defer func() { if r := recover(); r != nil { err = handler(r) } }()]
    around a body that returns the named result [err], still nil. *)
Definition recover (body : exec unit) (handler : string -> error) : exec (option error) :=
  fun h =>
    match body h with
    | (Ok _, h1, t) => (Ok None, h1, t)
    | (Panic r, h1, t) => (Ok (Some (handler r)), h1, t)
    end.

(** *** syncer code *)

(** [DefaultSyncer.getOrCreateFrame]; the pointer it returns is the key
    under which the store holds the frame. *)
Definition getOrCreateFrame (frameID : string) : exec Frame :=
  fun h =>
    match InMemory.LoadFrame frameID (store h) with
    | Some frame => (Ok frame, h, [EffLoadFrame frameID])
    | None =>
        let frame := NewFrame frameID in
        (Ok frame,
         {| store := InMemory.SaveFrame frame (store h); closures := closures h |},
         [EffLoadFrame frameID; EffSaveFrame frame])
    end.

(** [frame.UpdateState(&event)] through the pointer [getOrCreateFrame]
    returned: the frame held at [frameID] changes in place. The store
    holds a frame there whenever this runs after [getOrCreateFrame]; a nil
    pointer would panic at the call, the receiver being a value. *)
Definition frame_UpdateState (frameID : string) (event : Event) : exec unit :=
  fun h =>
    match Frames (store h) !! frameID with
    | Some frame =>
        let '(r, frame1) := UpdateState frame event in
        (r,
         {| store := {| Filters := Filters (store h);
                        NextBatch := NextBatch (store h);
                        Frames := <[frameID := frame1]> (Frames (store h)) |};
            closures := closures h |},
         [EffUpdateState frameID event])
    | None => (Panic nil_dereference, h, [])
    end.

(** [fn(event)] for the listener at position [index] *)
Definition call (index : nat) (fn : OnEventListener) (event : Event) : exec unit :=
  fun h =>
    let '(r, c) := fn event (closures h) in
    (r, {| store := store h; closures := c |}, [EffNotify index event]).

Fixpoint call_from (index : nat) (fns : list OnEventListener) (event : Event) : exec unit :=
  match fns with
  | [] => ret tt
  | fn :: rest => call index fn event;; call_from (S index) rest event
  end.

(** [DefaultSyncer.notifyListeners] *)
Definition notifyListeners (s : t) (event : Event) : exec unit :=
  match listeners s !! Type_ event with
  | None => ret tt
  | Some fns => call_from 0 fns event
  end.

(** The test of [shouldProcessResponse] on a timeline event:
    [e.Type == "m.frame.member" && e.StateKey != nil && *e.StateKey == s.UserID] *)
Definition is_own_member_event (s : t) (e : Event) : bool :=
  bool_decide (Type_ e = "m.frame.member") &&
  match StateKey e with
  | Some key => bool_decide (key = UserID s)
  | None => false
  end.

(** The inner loop of [shouldProcessResponse], on the timeline from its
    last event to its first. *)
Fixpoint scan_timeline (s : t) (frameID : string)
    (latest_first : list Event) (resp : RespSync) : RespSync :=
  match latest_first with
  | [] => resp
  | e :: earlier =>
      if is_own_member_event s e then
        match assert_string (Content e !! "membership") with
        | None => scan_timeline s frameID earlier resp            (* continue *)
        | Some mship =>
            if bool_decide (mship = "join") then
              match Join resp !! frameID with
              | None => scan_timeline s frameID earlier resp      (* continue *)
              | Some _ => delete_frame frameID resp               (* break *)
              end
            else scan_timeline s frameID earlier resp
        end
      else scan_timeline s frameID earlier resp
  end.

(** The outer loop of [shouldProcessResponse], on the entries it visits. *)
Definition scan_frames (s : t) (entries : list (string * JoinedFrame))
    (resp : RespSync) : RespSync :=
  foldl (fun resp '(frameID, frameData) =>
           scan_timeline s frameID (rev (JoinTimeline frameData)) resp)
        resp entries.

(** [DefaultSyncer.shouldProcessResponse]: the verdict and the response
    as the loop leaves it. The loop deletes only the key it is visiting,
    so [range] visits the entries the map had at the start. *)
Definition shouldProcessResponse (s : t) (resp : RespSync)
    (since : string) : bool * RespSync :=
  if bool_decide (since = "") then (false, resp)
  else (true, scan_frames s (range _ (Join resp)) resp).

(** The three loops of [ProcessResponse], bucket by bucket. *)
Definition process_joined (s : t) (frameID : string)
    (frameData : JoinedFrame) : exec unit :=
  frame ← getOrCreateFrame frameID;
  for_each (JoinState frameData) (fun event =>
    let event := set_FrameID frameID event in
    frame_UpdateState frameID event;;
    notifyListeners s event);;
  for_each (JoinTimeline frameData) (fun event =>
    let event := set_FrameID frameID event in
    notifyListeners s event);;
  for_each (JoinEphemeral frameData) (fun event =>
    let event := set_FrameID frameID event in
    notifyListeners s event).

Definition process_invited (s : t) (frameID : string)
    (frameData : InvitedFrame) : exec unit :=
  frame ← getOrCreateFrame frameID;
  for_each (InviteState frameData) (fun event =>
    let event := set_FrameID frameID event in
    frame_UpdateState frameID event;;
    notifyListeners s event).

Definition process_left_event (s : t) (frameID : string)
    (event : Event) : exec unit :=
  match StateKey event with
  | Some _ =>
      let event := set_FrameID frameID event in
      frame_UpdateState frameID event;;
      notifyListeners s event
  | None => ret tt
  end.

Definition process_left (s : t) (frameID : string)
    (frameData : LeftFrame) : exec unit :=
  frame ← getOrCreateFrame frameID;
  for_each (LeaveTimeline frameData) (process_left_event s frameID).

(** The body of [ProcessResponse] under the deferred [recover]. *)
Definition reconcile (s : t) (res : RespSync) : exec unit :=
  for_each (range _ (Join res)) (fun '(frameID, frameData) =>
    process_joined s frameID frameData);;
  for_each (range _ (Invite res)) (fun '(frameID, frameData) =>
    process_invited s frameID frameData);;
  for_each (range _ (Leave res)) (fun '(frameID, frameData) =>
    process_left s frameID frameData).

(** [fmt.Errorf("ProcessResponse panicked! userID=%s since=%s panic=%s\n%s", ...)] *)
Definition panicked (s : t) (since r : string) : error :=
  "ProcessResponse panicked! userID=" +:+ UserID s +:+ " since=" +:+ since
    +:+ " panic=" +:+ r +:+ LF +:+ debug_Stack.

(** [DefaultSyncer.ProcessResponse] *)
Definition ProcessResponse (s : t) (res : RespSync)
    (since : string) : exec (option error) :=
  let '(should, res) := shouldProcessResponse s res since in
  if negb should then ret None
  else recover (reconcile s res) (panicked s since).

(** [DefaultSyncer.OnFailedSync]: ten seconds, in nanoseconds, and no error *)
Definition OnFailedSync (res : option RespSync) (err : error)
    : Z * option error :=
  (10 * 1000000000, None).

(** [DefaultSyncer.GetFilterJSON] *)
Definition GetFilterJSON (userID : string) : string :=
  let q := String (Ascii.ascii_of_nat 34) EmptyString in
  "{" +:+ q +:+ "frame" +:+ q +:+ ":{" +:+ q +:+ "timeline" +:+ q +:+ ":{"
      +:+ q +:+ "limit" +:+ q +:+ ":50}}}".

End WithListeners.
End DefaultSyncer.

(** ** The interfaces [Storer] and [Syncer] *)

(** store.go, [Storer]: the methods act on the world [W] the client and
    its syncer share. *)
Class Storer (W : Type) : Type := {
  SaveFilterID : string -> string -> W -> W;
  LoadFilterID : string -> W -> string;
  SaveNextBatch : string -> string -> W -> W;
  LoadNextBatch : string -> W -> string;
  SaveFrame : Frame -> W -> W;
  LoadFrame : string -> W -> option Frame
}.

(** [Syncer]. [ProcessResponse] is the method that may panic;
    [OnFailedSync] gives the time to wait, in nanoseconds, and an error or
    nil. *)
Class Syncer (W : Type) : Type := {
  ProcessResponse : RespSync -> string -> W -> result (option error) * W;
  OnFailedSync : option RespSync -> error -> W -> Z * option error * W;
  GetFilterJSON : string -> W -> string
}.

(** frame.go, [RespCreateFilter] *)
Record RespCreateFilter : Type := mkRespCreateFilter {
  FilterID : string
}.

(** ** client.go *)

Module Client.
Section WithCollaborators.

Context {W : Type} `{!Storer W} `{!Syncer W}.

(** [Client]: the fields the sync loop reads. [Store] and [Syncer] are
    references into the world [W]; the homeserver URL, the prefix and the
    access token only shape the HTTP requests. *)
Record t : Type := mkClient {
  UserID : string;
  syncingID : Z;          (* uint32, guarded by syncingMutex *)
  world : W
}.

Definition with_world (w : W) (cli : t) : t :=
  {| UserID := UserID cli; syncingID := syncingID cli; world := w |}.

(** [cli.syncingID++] on a [uint32] *)
Definition uint32_succ (n : Z) : Z := (n + 1) mod 2 ^ 32.

(** [Client.incrementSyncingID]: the new value and the client *)
Definition incrementSyncingID (cli : t) : Z * t :=
  let cli1 := {| UserID := UserID cli;
                 syncingID := uint32_succ (syncingID cli);
                 world := world cli |} in
  (syncingID cli1, cli1).

(** [Client.getSyncingID] *)
Definition getSyncingID (cli : t) : Z := syncingID cli.

(** [Client.StopSync] *)
Definition StopSync (cli : t) : t := snd (incrementSyncingID cli).

(** [n] calls of [incrementSyncingID], each made by a call of [Sync] or of
    [StopSync] on this client. *)
Definition increments (n : N) (cli : t) : t :=
  N.iter n (fun cli => snd (incrementSyncingID cli)) cli.

(** *** The environment of a run of [Sync] *)

(** What [SyncRequest] returned: [(resp, nil)] or [(resp, err)] with
    [err] not nil, [resp] being possibly nil then. *)
Inductive fetched : Type :=
| FetchOk (resSync : RespSync)
| FetchErr (resSync : option RespSync) (err : error).

(** One passage through the loop, as the environment decides it: how many
    times other goroutines went through [incrementSyncingID] since the
    previous passage, and what the request returned. *)
Record round : Type := mkRound {
  others : N;
  response : fetched
}.

(** What the loop does to its collaborators, in the order it does it. *)
Inductive action : Type :=
| ActCreateFilter (filterJSON : string)
| ActSaveFilterID (userID filterID : string)
| ActSyncRequest (timeout : Z) (since filterID : string)
| ActOnFailedSync (resSync : option RespSync) (err : error)
| ActSleep (duration : Z)
| ActSaveNextBatch (userID nextBatchToken : string)
| ActProcessResponse (resSync : RespSync) (since : string).

(** How a run ends: [Sync] returned, a panic of [ProcessResponse] went
    through it, or the rounds are used up and the loop is about to issue
    its next request from [nextBatch]. *)
Inductive outcome : Type :=
| Returned (err : option error)
| Panicked (r : string)
| Polling (nextBatch : string).

Definition after (done : list action) (run : outcome * t * list action)
    : outcome * t * list action :=
  let '(o, cli, todo) := run in (o, cli, done ++ todo).

(** The [for] loop of [Sync]. *)
Fixpoint sync_loop (rounds : list round) (syncingID : Z)
    (nextBatch filterID : string) (cli : t) : outcome * t * list action :=
  match rounds with
  | [] => (Polling nextBatch, cli, [])
  | r :: later =>
      let request := ActSyncRequest 30000 nextBatch filterID in
      let cli := increments (others r) cli in
      match response r with
      | FetchErr resSync err =>
          let '(duration, err2, w) := OnFailedSync resSync err (world cli) in
          let cli := with_world w cli in
          match err2 with
          | Some err2 =>
              (Returned (Some err2), cli, [request; ActOnFailedSync resSync err])
          | None =>
              after [request; ActOnFailedSync resSync err; ActSleep duration]
                    (sync_loop later syncingID nextBatch filterID cli)
          end
      | FetchOk resSync =>
          if bool_decide (getSyncingID cli ≠ syncingID) then
            (Returned None, cli, [request])
          else
            let save := ActSaveNextBatch (UserID cli) (Resp_NextBatch resSync) in
            let cli :=
              with_world (SaveNextBatch (UserID cli) (Resp_NextBatch resSync) (world cli)) cli in
            let process := ActProcessResponse resSync nextBatch in
            let '(res, w) := ProcessResponse resSync nextBatch (world cli) in
            let cli := with_world w cli in
            match res with
            | Panic r => (Panicked r, cli, [request; save; process])
            | Ok (Some err) => (Returned (Some err), cli, [request; save; process])
            | Ok None =>
                after [request; save; process]
                      (sync_loop later syncingID (Resp_NextBatch resSync) filterID cli)
            end
      end
  end.

(** [Client.Sync]. [createFilter] is what the homeserver answers to
    [CreateFilter]. *)
Definition Sync (createFilter : string -> RespCreateFilter + error)
    (rounds : list round) (cli : t) : outcome * t * list action :=
  let '(syncingID, cli) := incrementSyncingID cli in
  let nextBatch := LoadNextBatch (UserID cli) (world cli) in
  let filterID := LoadFilterID (UserID cli) (world cli) in
  if bool_decide (filterID = "") then
    let filterJSON := GetFilterJSON (UserID cli) (world cli) in
    match createFilter filterJSON with
    | inr err => (Returned (Some err), cli, [ActCreateFilter filterJSON])
    | inl resFilter =>
        let filterID := FilterID resFilter in
        let cli := with_world (SaveFilterID (UserID cli) filterID (world cli)) cli in
        after [ActCreateFilter filterJSON; ActSaveFilterID (UserID cli) filterID]
              (sync_loop rounds syncingID nextBatch filterID cli)
    end
  else sync_loop rounds syncingID nextBatch filterID cli.

End WithCollaborators.
End Client.

(** ** The client [NewClient] builds: one in-memory store, shared with a
    default syncer *)

Module Default.
Section WithListeners.

Context {L : Type}.
Variable debug_Stack : string.
Variable range : forall A : Type, gmap string A -> list (string * A).

Record world : Type := mkWorld {
  syncer : DefaultSyncer.t (L := L);
  memory : DefaultSyncer.heap (L := L)
}.

Definition on_store (f : InMemoryStore -> InMemoryStore) (w : world) : world :=
  {| syncer := syncer w;
     memory := {| DefaultSyncer.store := f (DefaultSyncer.store (memory w));
                  DefaultSyncer.closures := DefaultSyncer.closures (memory w) |} |}.

#[global] Instance storer : Storer world := {|
  SaveFilterID userID filterID := on_store (InMemory.SaveFilterID userID filterID);
  LoadFilterID userID w := InMemory.LoadFilterID userID (DefaultSyncer.store (memory w));
  SaveNextBatch userID token := on_store (InMemory.SaveNextBatch userID token);
  LoadNextBatch userID w := InMemory.LoadNextBatch userID (DefaultSyncer.store (memory w));
  SaveFrame frame := on_store (InMemory.SaveFrame frame);
  LoadFrame frameID w := InMemory.LoadFrame frameID (DefaultSyncer.store (memory w))
|}.

Definition syncer_instance : Syncer world := {|
  ProcessResponse res since w :=
    let '(r, h, _) :=
      DefaultSyncer.ProcessResponse debug_Stack range (syncer w) res since (memory w) in
    (r, {| syncer := syncer w; memory := h |});
  OnFailedSync res err w := (DefaultSyncer.OnFailedSync res err, w);
  GetFilterJSON userID w := DefaultSyncer.GetFilterJSON userID
|}.

(** [NewClient] *)
Definition NewClient (userID : string) (closures : L) : Client.t (W := world) :=
  {| Client.UserID := userID;
     Client.syncingID := 0;
     Client.world :=
       {| syncer := DefaultSyncer.NewDefaultSyncer userID;
          memory := {| DefaultSyncer.store := NewInMemoryStore;
                       DefaultSyncer.closures := closures |} |} |}.

End WithListeners.
End Default.

(** * Vocabulary of the specification *)

Section TokenVocabulary.

Context {W : Type}.
Implicit Types cli : Client.t (W := W).

(** The token the call number [n + 1] made on [cli] is issued: every call
    of [Sync] and of [StopSync] goes through [incrementSyncingID] once. *)
Definition token_issued cli (n : N) : Z :=
  fst (Client.incrementSyncingID (Client.increments n cli)).

(** The claim as the specification words it: each token is strictly
    greater than every token issued before it. *)
Definition tokens_strictly_increase cli : Prop :=
  forall m n : N, (m < n)%N -> token_issued cli m < token_issued cli n.

End TokenVocabulary.

Section ReconciliationVocabulary.

Context {L : Type}.
Implicit Types (s : DefaultSyncer.t (L := L)) (h : DefaultSyncer.heap (L := L)).

(** A specification of a computation: it keeps the invariant [I] of the
    heap, all its effects satisfy [T], and when it panics the panic value
    satisfies [R]. *)
Definition run_spec (I : DefaultSyncer.heap (L := L) -> Prop) (T : effect -> Prop)
    (R : string -> Prop) {A : Type} (m : DefaultSyncer.exec (L := L) A) : Prop :=
  forall h, I h ->
    I (m h).1.2 /\ Forall T (m h).2 /\ forall r, (m h).1.1 = Panic r -> R r.

(** [I], [T] and [R] allow what the syncer does for the frame
    [frameID]: changes of the frame the store holds there, calls of
    callbacks, effects about that frame, and the panic on a nil pointer. *)
Definition allows (I : DefaultSyncer.heap (L := L) -> Prop) (T : effect -> Prop)
    (R : string -> Prop) (frameID : string) : Prop :=
  (forall h frame, I h ->
     I {| DefaultSyncer.store :=
            {| Filters := Filters (DefaultSyncer.store h);
               NextBatch := NextBatch (DefaultSyncer.store h);
               Frames := <[frameID := frame]> (Frames (DefaultSyncer.store h)) |};
          DefaultSyncer.closures := DefaultSyncer.closures h |})
  /\ (forall h c, I h ->
        I {| DefaultSyncer.store := DefaultSyncer.store h; DefaultSyncer.closures := c |})
  /\ (forall eff, effect_frame eff = frameID -> T eff)
  /\ R nil_dereference.

(** The panic values of the registered callbacks satisfy [R]. *)
Definition listeners_panic_within (R : string -> Prop) s : Prop :=
  forall eventType fns fn event c r,
    DefaultSyncer.listeners s !! eventType = Some fns ->
    fn ∈ fns -> (fn event c).1 = Panic r -> R r.

(** An outcome that is a panic. *)
Definition panics {A : Type}
    (out : result A * DefaultSyncer.heap (L := L) * list effect) : Prop :=
  exists r, out.1.1 = Panic r.

(** No registered callback panics. *)
Definition listeners_return s : Prop :=
  forall eventType fns fn event c,
    DefaultSyncer.listeners s !! eventType = Some fns ->
    fn ∈ fns -> (fn event c).1 = Ok tt.

(** The membership content of the most recent timeline event that is a
    membership event of the syncing user. *)
Definition latest_own_membership s (timeline : list Event) : option json :=
  match List.find (DefaultSyncer.is_own_member_event s) (rev timeline) with
  | Some e => Content e !! "membership"
  | None => None
  end.

(** Some timeline event is a membership event of the syncing user whose
    membership is the string "join". *)
Definition rejoined s (timeline : list Event) : bool :=
  existsb (fun e => DefaultSyncer.is_own_member_event s e
                    && bool_decide (assert_string (Content e !! "membership") = Some "join"))
          timeline.

(** The effect updates the state table of the frame [F] or calls a
    listener on an event of the frame [F]. *)
Definition touches (F : string) (eff : effect) : bool :=
  match eff with
  | EffUpdateState frameID _ => bool_decide (frameID = F)
  | EffNotify _ event => bool_decide (FrameID event = F)
  | _ => false
  end.

(** What the join-race suppression promises for the frame [F] in a run of
    [ProcessResponse]: the frame is out of the joined and invited buckets
    when the main pass starts, its state table is as it was, and no
    effect touches it. *)
Definition suppressed (debug_Stack : string)
    (range : forall A : Type, gmap string A -> list (string * A))
    s (res : RespSync) (since : string) h (F : string) : Prop :=
  let res1 := (DefaultSyncer.shouldProcessResponse range s res since).2 in
  let '(_, h1, t) := DefaultSyncer.ProcessResponse debug_Stack range s res since h in
  Join res1 !! F = None /\ Invite res1 !! F = None
  /\ Frames (DefaultSyncer.store h1) !! F = Frames (DefaultSyncer.store h) !! F
  /\ Forall (fun eff => touches F eff = false) t.

(** The event has a state key. *)
Definition has_StateKey (e : Event) : bool :=
  match StateKey e with Some _ => true | None => false end.

End ReconciliationVocabulary.

(** [part] occurs in [whole]. *)
Definition contains (part whole : string) : Prop :=
  exists pre post, whole = pre +:+ part +:+ post.

(** The join-race suppression as the specification words it, [joined]
    being the membership value it names. *)
Definition suppression_as_stated (joined : string) : Prop :=
  forall (L : Type) (debug_Stack : string)
         (range : forall A : Type, gmap string A -> list (string * A)),
    (forall (A : Type) (m : gmap string A), range A m ≡ₚ map_to_list m) ->
    forall (s : DefaultSyncer.t (L := L)) res since h F frameData,
      since ≠ "" ->
      Join res !! F = Some frameData ->
      latest_own_membership s (JoinTimeline frameData) = Some (JString joined) ->
      suppressed debug_Stack range s res since h F.

(** The entry of the state table a membership lookup reads. *)
Definition member_entry (frame : Frame) (userID : string) (event : Event) : Prop :=
  exists inner, State frame !! "m.frame.member" = Some inner /\ inner !! userID = Some event.

(** ** Sample data *)

Module Sample.

Definition me : string := "@bot:hs".

Definition event (type : string) (key : option string) (membership : option json) : Event :=
  {| StateKey := key; Sender := "@alice:hs"; Type_ := type; Timestamp := 0;
     ID := "$e"; FrameID := ""; Redacts := "";
     Content := match membership with
                | Some v => {[ "membership" := v ]}
                | None => ∅
                end |}.

Definition member (userID membership : string) : Event :=
  event "m.frame.member" (Some userID) (Some (JString membership)).

Definition message : Event := event "m.frame.message" None None.

(** The order of [map_to_list] is one of the orders [range] may take. *)
Definition in_order : forall A : Type, gmap string A -> list (string * A) :=
  fun A => map_to_list.

(** Callbacks over a counter: one counts its calls, one panics. *)
Definition count : DefaultSyncer.OnEventListener (L := nat) :=
  fun _ n => (Ok tt, S n).

Definition boom : DefaultSyncer.OnEventListener (L := nat) :=
  fun _ n => (Panic "boom", n).

Definition counting : DefaultSyncer.t (L := nat) :=
  DefaultSyncer.OnEventType
    (DefaultSyncer.OnEventType (DefaultSyncer.NewDefaultSyncer me) "m.frame.member" count)
    "m.frame.message" count.

Definition exploding : DefaultSyncer.t (L := nat) :=
  DefaultSyncer.OnEventType (DefaultSyncer.NewDefaultSyncer me) "m.frame.message" boom.

Definition empty_heap : DefaultSyncer.heap (L := nat) :=
  {| DefaultSyncer.store := NewInMemoryStore; DefaultSyncer.closures := 0%nat |}.

(** A heap whose store holds the frame "!a", fresh. *)
Definition holding_a : DefaultSyncer.heap (L := nat) :=
  {| DefaultSyncer.store := InMemory.SaveFrame (NewFrame "!a") NewInMemoryStore;
     DefaultSyncer.closures := 0%nat |}.

Definition response (leave : gmap string LeftFrame) (join : gmap string JoinedFrame)
    (invite : gmap string InvitedFrame) : RespSync :=
  {| Resp_NextBatch := "s2"; AccountData := []; Presence := [];
     Leave := leave; Join := join; Invite := invite |}.

(** The bot has just joined "!a": its join is the last timeline event,
    after a message; it is invited there too. *)
Definition rejoin : RespSync :=
  response ∅
    {[ "!a" := mkJoined [member "@alice:hs" "join"] [message; member me "join"] [message] ]}
    {[ "!a" := mkInvited [member me "invite"] ]}.

(** The same, the membership value being the string "joined". *)
Definition rejoin_joined : RespSync :=
  response ∅
    {[ "!a" := mkJoined [] [message; member me "joined"] [] ]}
    ∅.

(** The same as [rejoin], the frame being in the left bucket too. *)
Definition rejoin_and_left : RespSync :=
  response
    {[ "!a" := mkLeft [] [member me "leave"] ]}
    {[ "!a" := mkJoined [] [message; member me "join"] [] ]}
    ∅.

(** A joined frame with a message. *)
Definition chat : RespSync :=
  response ∅ {[ "!b" := mkJoined [] [message] [] ]} ∅.

(** A joined frame whose state holds an event without a state key. *)
Definition keyless_state : RespSync :=
  response ∅ {[ "!b" := mkJoined [event "m.frame.name" None None] [] [] ]} ∅.

(** A client over the shared store, with the given callbacks registered. *)
Definition client (s : DefaultSyncer.t (L := nat)) : Client.t (W := Default.world (L := nat)) :=
  {| Client.UserID := me;
     Client.syncingID := 1;
     Client.world := {| Default.syncer := s; Default.memory := empty_heap |} |}.

#[global] Instance default_syncer : Syncer (Default.world (L := nat)) :=
  Default.syncer_instance "goroutine 1 [running]" in_order.

(** A store that keeps nothing and a syncer that gives up on the first
    failed request. *)
Inductive nothing : Type := Nothing.

#[global] Instance forgetful : Storer nothing := {|
  SaveFilterID _ _ w := w;
  LoadFilterID _ _ := "";
  SaveNextBatch _ _ w := w;
  LoadNextBatch _ _ := "";
  SaveFrame _ w := w;
  LoadFrame _ _ := None
|}.

#[global] Instance giving_up : Syncer nothing := {|
  ProcessResponse _ _ w := (Ok None, w);
  OnFailedSync _ _ w := (0, Some "giving up", w);
  GetFilterJSON _ _ := "{}"
|}.

End Sample.

(** * Further code of the package *)

(** ** filter.go *)

Module Filter.

Record FilterPart : Type := mkFilterPart {
  NotFrames : list string;
  Frames : list string;
  Limit : Z;
  NotSenders : list string;
  NotTypes : list string;
  Senders : list string;
  Types : list string;
  ContainsURL : option bool
}.

Record FrameFilter : Type := mkFrameFilter {
  Frame_AccountData : FilterPart;
  Frame_Ephemeral : FilterPart;
  Frame_IncludeLeave : bool;
  Frame_NotFrames : list string;
  Frame_Frames : list string;
  Frame_State : FilterPart;
  Frame_Timeline : FilterPart
}.

Record t : Type := mkFilter {
  AccountData : FilterPart;
  EventFields : list string;
  EventFormat : string;
  Presence : FilterPart;
  Frame : FrameFilter
}.

(** The message of [Validate], with its double quotes. *)
Definition bad_event_format : string :=
  let q := String (Ascii.ascii_of_nat 34) EmptyString in
  "bad event_format value. Must be one of [" +:+ q +:+ "client" +:+ q +:+ ", "
    +:+ q +:+ "federation" +:+ q +:+ "]".

(** [Filter.Validate] *)
Definition Validate (filter : t) : option error :=
  if negb (bool_decide (EventFormat filter = "client"))
     && negb (bool_decide (EventFormat filter = "federation"))
  then Some bad_event_format
  else None.

(** [DefaultFilterPart] *)
Definition DefaultFilterPart : FilterPart :=
  {| NotFrames := []; Frames := []; Limit := 20; NotSenders := []; NotTypes := [];
     Senders := []; Types := []; ContainsURL := None |}.

(** [DefaultFilter] *)
Definition DefaultFilter : t :=
  {| AccountData := DefaultFilterPart;
     EventFields := [];
     EventFormat := "client";
     Presence := DefaultFilterPart;
     Frame := {| Frame_AccountData := DefaultFilterPart;
                 Frame_Ephemeral := DefaultFilterPart;
                 Frame_IncludeLeave := false;
                 Frame_NotFrames := [];
                 Frame_Frames := [];
                 Frame_State := DefaultFilterPart;
                 Frame_Timeline := DefaultFilterPart |} |}.

End Filter.

(** ** Requests and responses of the registration (requests.go, frame.go) *)

(** [RespError] *)
Record RespError : Type := mkRespError {
  ErrCode : string;
  Err : string
}.

(** [RespError.Error] *)
Definition RespError_Error (e : RespError) : string :=
  ErrCode e +:+ ": " +:+ Err e.

(** One entry of [RespUserInteractive.Flows] *)
Record Flow : Type := mkFlow {
  Stages : list string
}.

(** [RespUserInteractive] *)
Record RespUserInteractive : Type := mkRespUserInteractive {
  Flows : list Flow;
  Params : gmap string json;
  Session : string;
  Completed : list string;
  UIA_ErrCode : string;
  UIA_Error : string
}.

(** The loop of [HasSingleStageFlow]: the first flow with one stage, the
    stage asked for, ends it. *)
Fixpoint single_stage_flow (flows : list Flow) (stageName : string) : bool :=
  match flows with
  | [] => false
  | f :: rest =>
      if Nat.eqb (length (Stages f)) 1
         && bool_decide (Stages f !! 0%nat = Some stageName)
      then true
      else single_stage_flow rest stageName
  end.

(** [RespUserInteractive.HasSingleStageFlow] *)
Definition HasSingleStageFlow (r : RespUserInteractive) (stageName : string) : bool :=
  single_stage_flow (Flows r) stageName.

(** [RespRegister] *)
Record RespRegister : Type := mkRespRegister {
  AccessToken : string;
  DeviceID : string;
  HomeServer : string;
  RefreshToken : string;
  Register_UserID : string
}.

(** The values [ReqRegister.Auth], an [interface{}], takes: what the caller
    put there, or the struct [RegisterDummy] builds. *)
Inductive auth : Type :=
| CallerAuth (v : json)
| DummyAuth (type session : string).

(** [ReqRegister] *)
Record ReqRegister : Type := mkReqRegister {
  Username : string;
  BindEmail : bool;
  Password : string;
  Req_DeviceID : string;
  InitialDeviceDisplayName : string;
  Auth : option auth
}.

(** [req.Auth = auth] *)
Definition set_Auth (a : auth) (req : ReqRegister) : ReqRegister :=
  {| Username := Username req; BindEmail := BindEmail req; Password := Password req;
     Req_DeviceID := Req_DeviceID req;
     InitialDeviceDisplayName := InitialDeviceDisplayName req;
     Auth := Some a |}.

(** ** The transport (client.go, [MakeRequest]) *)

(** [HTTPError] *)
Record HTTPError : Type := mkHTTPError {
  Contents : string;
  WrappedError : option RespError;
  Message : string;
  Code : Z
}.

(** The errors a request returns: an [HTTPError], or another error, by its
    message. *)
Inductive request_error : Type :=
| ErrHTTP (e : HTTPError)
| ErrOther (msg : string).

(** What sending a request came to: an error before any response (encoding
    the body, building the request, [Client.Do]), or a response with its
    status code and what [io.ReadAll] makes of its body. *)
Inductive answer : Type :=
| NoResponse (err : string)
| Response (StatusCode : Z) (body : string + string).

(** [Client.MakeRequest], from the answer on, for a result of type [R].
    [unmarshal_RespError] is the [RespError] that [json.Unmarshal] fills from
    the contents, its error being ignored; [decode] is what decoding the
    body of a successful response gives: the result, possibly nil, and the
    error. The division of [int]s truncates toward zero. *)
Definition MakeRequest {R : Type} (method path : string) (sent : answer)
    (unmarshal_RespError : string -> RespError)
    (decode : string + string -> option R * option request_error)
    : option R * option request_error :=
  match sent with
  | NoResponse err => (None, Some (ErrOther err))
  | Response StatusCode body =>
      if negb (Z.eqb (Z.quot StatusCode 100) 2) then
        match body with
        | inr err => (None, Some (ErrOther err))
        | inl contents =>
            let respErr := unmarshal_RespError contents in
            let wrap :=
              if negb (bool_decide (ErrCode respErr = "")) then Some respErr else None in
            let msg := "Failed to " +:+ method +:+ " JSON to " +:+ path in
            let msg :=
              match wrap with
              | None => msg +:+ ": " +:+ contents
              | Some _ => msg
              end in
            (None,
             Some (ErrHTTP {| Contents := contents; Code := StatusCode;
                              Message := msg; WrappedError := wrap |}))
        end
      else decode body
  end.

(** ** Registration (client.go) *)

Module Registration.
Section WithHomeserver.

(** The state of the homeserver, and what it answers to a POST. *)
Context {S : Type}.
Variable post : string -> ReqRegister -> S -> answer * S.

(** [cli.BuildURL("register")] and the path of a URL. *)
Variable register_url : string.
Variable url_path : string -> string.

(** The decoders of [encoding/json] on the three bodies. *)
Variable unmarshal_RespError : string -> RespError.
Variable decode_RespRegister : string + string -> option RespRegister * option request_error.
Variable unmarshal_RespUserInteractive :
  string -> option RespUserInteractive * option request_error.

(** What a call returns, the homeserver after it, and the requests it
    has sent. *)
Definition call (A : Type) : Type := A * S * list (string * ReqRegister).

(** [Client.register] *)
Definition register (u : string) (req : ReqRegister) (st : S)
    : call (option RespRegister * option RespUserInteractive * option request_error) :=
  let '(sent, st) := post u req st in
  let '(resp, err) :=
    MakeRequest "POST" (url_path u) sent unmarshal_RespError decode_RespRegister in
  match err with
  | Some (ErrHTTP httpErr) =>
      if Z.eqb (Code httpErr) 401 then
        let '(uiaResp, err) := unmarshal_RespUserInteractive (Contents httpErr) in
        ((resp, uiaResp, err), st, [(u, req)])
      else ((resp, None, err), st, [(u, req)])
  | Some (ErrOther _) => ((resp, None, err), st, [(u, req)])     (* network error *)
  | None => ((resp, None, err), st, [(u, req)])
  end.

(** [Client.Register] *)
Definition Register (req : ReqRegister) (st : S)
    : call (option RespRegister * option RespUserInteractive * option request_error) :=
  register register_url req st.

(** The error of [RegisterDummy] when no registration came out. *)
Definition registration_failed : request_error :=
  ErrOther "registration failed: does this server support m.login.dummy?".

(** The end of [RegisterDummy]: [if res == nil { ... } return res, nil] *)
Definition registered (res : option RespRegister)
    : option RespRegister * option request_error :=
  match res with
  | None => (None, Some registration_failed)
  | Some res => (Some res, None)
  end.

(** [Client.RegisterDummy] *)
Definition RegisterDummy (req : ReqRegister) (st : S)
    : call (option RespRegister * option request_error) :=
  let '((res, uia, err), st, sent) := Register req st in
  match err, uia with
  | Some err, None => ((None, Some err), st, sent)
  | _, Some uia =>
      if HasSingleStageFlow uia "m.login.dummy" then
        let req := set_Auth (DummyAuth "m.login.dummy" (Session uia)) req in
        let '((res, _, err), st, sent2) := Register req st in
        match err with
        | Some err => ((None, Some err), st, sent ++ sent2)
        | None => (registered res, st, sent ++ sent2)
        end
      else (registered res, st, sent)
  | None, None => (registered res, st, sent)
  end.

End WithHomeserver.
End Registration.

(** * Vocabulary of the further properties *)

Section StoreVocabulary.

Context {L : Type}.

(** What the syncer does to the store for the frame [frameID]: it saves a
    new frame where there was none, or updates the state of the frame that
    is there with an event of that frame. The filter identifiers, the
    positions and the other frames are as they were. *)
Definition frame_step (frameID : string) (st st1 : InMemoryStore) : Prop :=
  Filters st1 = Filters st
  /\ NextBatch st1 = NextBatch st
  /\ (forall k, k ≠ frameID -> Frames st1 !! k = Frames st !! k)
  /\ ((Frames st !! frameID = None /\ Frames st1 !! frameID = Some (NewFrame frameID))
      \/ exists frame event,
           FrameID event = frameID
           /\ Frames st !! frameID = Some frame
           /\ Frames st1 !! frameID = Some (UpdateState frame event).2).

(** A property of the store that every such step keeps. *)
Definition kept_by_steps (P : InMemoryStore -> Prop) : Prop :=
  forall frameID st st1, frame_step frameID st st1 -> P st -> P st1.

(** Every entry of the state table sits under its own type and state key. *)
Definition state_well_formed (frame : Frame) : Prop :=
  forall eventType stateKey event,
    GetStateEvent frame eventType stateKey = Some event ->
    Type_ event = eventType /\ StateKey event = Some stateKey.

(** Every frame of the store is held under its own identifier. *)
Definition store_well_keyed (st : InMemoryStore) : Prop :=
  forall frameID frame, Frames st !! frameID = Some frame -> Frame_ID frame = frameID.

(** The calls [notifyListeners] makes for an event when no callback
    panics: one per registered listener, in the order of registration. *)
Definition notify_effects (s : DefaultSyncer.t (L := L)) (event : Event) : list effect :=
  imap (fun index _ => EffNotify index event)
       (default [] (DefaultSyncer.listeners s !! Type_ event)).

(** The memory of the callbacks after they have run in turn on an event. *)
Definition run_listeners (fns : list (DefaultSyncer.OnEventListener (L := L)))
    (event : Event) (c : L) : L :=
  foldl (fun c fn => (fn event c).2) c fns.

End StoreVocabulary.

(** The live token is the captured one after [n] increments. *)
Definition token_unchanged_after {W : Type} (cli : Client.t (W := W)) (n : N) : Prop :=
  Client.getSyncingID (Client.increments n cli) = Client.syncingID cli.

(** Every event of a state table carries the identifier of the frame the
    store holds the table for. *)
Definition store_events_tagged (st : InMemoryStore) : Prop :=
  forall frameID frame eventType stateKey event,
    Frames st !! frameID = Some frame ->
    GetStateEvent frame eventType stateKey = Some event ->
    FrameID event = frameID.

Section LoopVocabulary.

Context {W : Type}.

(** In a list of actions, [ProcessResponse] comes only right after
    [SaveNextBatch], called with the position of the same response, and
    [SaveNextBatch] is always followed by it. *)
Fixpoint saved_before_processed (actions : list (Client.action)) : bool :=
  match actions with
  | [] => true
  | Client.ActSaveNextBatch _ token :: rest =>
      match rest with
      | Client.ActProcessResponse resSync _ :: rest1 =>
          bool_decide (token = Resp_NextBatch resSync) && saved_before_processed rest1
      | _ => false
      end
  | Client.ActProcessResponse _ _ :: _ => false
  | _ :: rest => saved_before_processed rest
  end.

(** The position the last [SaveNextBatch] of a list of actions wrote, or
    [start] when there is none. *)
Definition last_saved (start : string) (actions : list Client.action) : string :=
  foldl (fun position a =>
           match a with
           | Client.ActSaveNextBatch _ token => token
           | _ => position
           end)
        start actions.

(** The action belongs to the loop run with the filter [filterID]: its
    requests carry that filter and the long-poll timeout, and the filter is
    neither created nor saved. *)
Definition loop_action (filterID : string) (a : Client.action) : Prop :=
  match a with
  | Client.ActSyncRequest timeout _ filter => timeout = 30000 /\ filter = filterID
  | Client.ActCreateFilter _ => False
  | Client.ActSaveFilterID _ _ => False
  | _ => True
  end.

(** The request of the round failed. *)
Definition failed (r : Client.round) : Prop :=
  match Client.response r with
  | Client.FetchErr _ _ => True
  | Client.FetchOk _ => False
  end.

End LoopVocabulary.

Section WorldVocabulary.

Context {W : Type} `{!Storer W} `{!Syncer W}.

(** What the loop relies on from its collaborators: the store loads the
    position it saved and saving a position leaves the filter identifiers
    alone; the syncer leaves the positions and the filter identifiers
    alone, in [ProcessResponse] and in [OnFailedSync]. *)
Definition lawful : Prop :=
  (forall userID token (w : W), LoadNextBatch userID (SaveNextBatch userID token w) = token)
  /\ (forall userID token other (w : W),
        LoadFilterID other (SaveNextBatch userID token w) = LoadFilterID other w)
  /\ (forall res since (w w1 : W) out userID,
        ProcessResponse res since w = (out, w1) ->
        LoadNextBatch userID w1 = LoadNextBatch userID w
        /\ LoadFilterID userID w1 = LoadFilterID userID w)
  /\ (forall res err (w w1 : W) duration err2 userID,
        OnFailedSync res err w = (duration, err2, w1) ->
        LoadNextBatch userID w1 = LoadNextBatch userID w
        /\ LoadFilterID userID w1 = LoadFilterID userID w).

(** The actions of a passage through the loop whose request failed, under
    a policy that waits [duration]. *)
Definition failed_passage (duration : Z) (nextBatch filterID : string) (r : Client.round)
    : list Client.action :=
  match Client.response r with
  | Client.FetchErr resSync err =>
      [Client.ActSyncRequest 30000 nextBatch filterID; Client.ActOnFailedSync resSync err;
       Client.ActSleep duration]
  | Client.FetchOk _ => []
  end.

End WorldVocabulary.

(** ** More sample data *)

Module Fixture.

(** A homeserver that wants a session: it answers 401 with the flows until
    the request carries the dummy stage with the session "xyz". *)
Definition granted : RespRegister :=
  {| AccessToken := "tok"; DeviceID := "dev"; HomeServer := "hs";
     RefreshToken := ""; Register_UserID := "@alice:hs" |}.

Definition challenge : RespUserInteractive :=
  {| Flows := [mkFlow ["m.login.recaptcha"; "m.login.dummy"]; mkFlow ["m.login.dummy"]];
     Params := ∅; Session := "xyz"; Completed := [];
     UIA_ErrCode := ""; UIA_Error := "" |}.

Definition homeserver (u : string) (req : ReqRegister) (served : nat) : answer * nat :=
  match Auth req with
  | Some (DummyAuth "m.login.dummy" "xyz") => (Response 200 (inl "granted"), S served)
  | _ => (Response 401 (inl "challenge"), S served)
  end.

Definition no_RespError (contents : string) : RespError :=
  {| ErrCode := ""; Err := "" |}.

Definition decode_granted (body : string + string)
    : option RespRegister * option request_error :=
  match body with
  | inl "granted" => (Some granted, None)
  | inl _ => (None, Some (ErrOther "unexpected end of JSON input"))
  | inr err => (None, Some (ErrOther err))
  end.

Definition unmarshal_challenge (contents : string)
    : option RespUserInteractive * option request_error :=
  if bool_decide (contents = "challenge") then (Some challenge, None)
  else (None, Some (ErrOther "invalid character")).

Definition alice : ReqRegister :=
  {| Username := "alice"; BindEmail := false; Password := "wonderland";
     Req_DeviceID := ""; InitialDeviceDisplayName := ""; Auth := None |}.

(** A frame whose state holds the membership of two users. *)
Definition two_members : Frame :=
  (UpdateState
     (UpdateState (NewFrame "!a") (set_FrameID "!a" (Sample.member "@alice:hs" "join"))).2
     (set_FrameID "!a" (Sample.member Sample.me "invite"))).2.

(** Two callbacks on messages: the first counts, the second panics, the
    third counts. *)
Definition count_boom_count : DefaultSyncer.t (L := nat) :=
  DefaultSyncer.OnEventType
    (DefaultSyncer.OnEventType
       (DefaultSyncer.OnEventType (DefaultSyncer.NewDefaultSyncer Sample.me)
          "m.frame.message" Sample.count)
       "m.frame.message" Sample.boom)
    "m.frame.message" Sample.count.

(** Two counting callbacks on messages. *)
Definition count_twice : DefaultSyncer.t (L := nat) :=
  DefaultSyncer.OnEventType
    (DefaultSyncer.OnEventType (DefaultSyncer.NewDefaultSyncer Sample.me)
       "m.frame.message" Sample.count)
    "m.frame.message" Sample.count.

(** The reverse of the order of [Sample.in_order]. *)
Definition in_reverse : forall A : Type, gmap string A -> list (string * A) :=
  fun A m => rev (map_to_list m).

(** The bot joined "!a" and left it again in the same timeline; it is in
    "!b" and invited to "!a" and to "!c". *)
Definition joined_then_left : RespSync :=
  Sample.response ∅
    {[ "!a" := mkJoined [] [Sample.member Sample.me "join"; Sample.message;
                            Sample.member Sample.me "leave"] [];
       "!b" := mkJoined [] [Sample.message] [] ]}
    {[ "!a" := mkInvited [Sample.member Sample.me "invite"];
       "!c" := mkInvited [Sample.member Sample.me "invite"] ]}.

(** A joined frame with a state event, two messages and a typing notice. *)
Definition busy : JoinedFrame :=
  mkJoined [Sample.member "@alice:hs" "join"]
           [Sample.message; Sample.message]
           [Sample.event "m.typing" None None].

End Fixture.

(** * Properties *)

(** ** The generation token *)

Section Token.

Context {W : Type}.
Implicit Types cli : Client.t (W := W).

Lemma increments_succ cli (n : N) :
  Client.increments (N.succ n) cli
  = snd (Client.incrementSyncingID (Client.increments n cli)).
Proof. unfold Client.increments. apply N.iter_succ. Qed.

Lemma increments_syncingID cli (n : N) :
  Client.syncingID (Client.increments n cli)
  = if (n =? 0)%N then Client.syncingID cli
    else (Client.syncingID cli + Z.of_N n) mod 2 ^ 32.
Proof.
  induction n as [|n IH] using N.peano_ind; [reflexivity|].
  rewrite increments_succ. cbn [Client.incrementSyncingID snd Client.syncingID].
  rewrite IH. unfold Client.uint32_succ.
  replace (N.succ n =? 0)%N with false by (symmetry; apply N.eqb_neq; lia).
  destruct (N.eqb_spec n 0) as [Hn|Hn].
  - rewrite Hn. f_equal.
  - rewrite Zplus_mod_idemp_l. f_equal. lia.
Qed.

Lemma increments_world cli (n : N) :
  Client.world (Client.increments n cli) = Client.world cli.
Proof.
  induction n as [|n IH] using N.peano_ind; [reflexivity|].
  rewrite increments_succ. exact IH.
Qed.

Lemma increments_UserID cli (n : N) :
  Client.UserID (Client.increments n cli) = Client.UserID cli.
Proof.
  induction n as [|n IH] using N.peano_ind; [reflexivity|].
  rewrite increments_succ. exact IH.
Qed.

Lemma token_issued_eq cli (n : N) :
  token_issued cli n = (Client.syncingID cli + Z.of_N n + 1) mod 2 ^ 32.
Proof.
  unfold token_issued. cbn [Client.incrementSyncingID fst Client.syncingID].
  rewrite increments_syncingID. unfold Client.uint32_succ.
  destruct (N.eqb_spec n 0) as [Hn|Hn].
  - rewrite Hn. f_equal. lia.
  - rewrite Zplus_mod_idemp_l. reflexivity.
Qed.

End Token.

(** C9, amended: the token a call of [Sync] or [StopSync] is issued is
    strictly greater than every token issued before it as long as the
    [uint32] counter has not wrapped around, that is while the counter plus
    the number of calls stays below [2^32]. *)
Theorem tokens_increase_until_wrap {W : Type} (cli : Client.t (W := W)) (m n : N) :
  0 <= Client.syncingID cli ->
  (m < n)%N ->
  Client.syncingID cli + Z.of_N n + 1 < 2 ^ 32 ->
  token_issued cli m < token_issued cli n.
Proof.
  intros Hlo Hmn Hhi. rewrite !token_issued_eq.
  rewrite !Z.mod_small by lia. lia.
Qed.

Lemma tokens_increase_until_wrap_witness :
  token_issued (Default.NewClient (L := unit) "@bot:hs" tt) 0
  < token_issued (Default.NewClient (L := unit) "@bot:hs" tt) 1.
Proof.
  apply (tokens_increase_until_wrap (Default.NewClient (L := unit) "@bot:hs" tt) 0 1).
  - vm_compute. discriminate.
  - reflexivity.
  - reflexivity.
Defined.

(** C9, as stated, fails: on a client fresh from [NewClient], the call
    number [2^32 - 1] is issued the token [4294967295] and the next call the
    token [0]. *)
Lemma tokens_wrap_to_zero :
  token_issued (Default.NewClient (L := unit) "@bot:hs" tt) (2 ^ 32 - 2) = 4294967295
  /\ token_issued (Default.NewClient (L := unit) "@bot:hs" tt) (2 ^ 32 - 1) = 0
  /\ ~ tokens_strictly_increase (Default.NewClient (L := unit) "@bot:hs" tt).
Proof.
  assert (H1 : token_issued (Default.NewClient (L := unit) "@bot:hs" tt) (2 ^ 32 - 2)
               = 4294967295) by (rewrite token_issued_eq; reflexivity).
  assert (H2 : token_issued (Default.NewClient (L := unit) "@bot:hs" tt) (2 ^ 32 - 1)
               = 0) by (rewrite token_issued_eq; reflexivity).
  split; [exact H1|]. split; [exact H2|].
  intros Hinc. specialize (Hinc (2 ^ 32 - 2)%N (2 ^ 32 - 1)%N).
  rewrite H1, H2 in Hinc. assert (4294967295 < 0) by (apply Hinc; reflexivity). lia.
Qed.

(** ** The sync loop *)

Section SyncLoop.

Context {W : Type} `{!Storer W} `{!Syncer W}.
Implicit Types (cli : Client.t (W := W)) (rounds : list Client.round).

Lemma after_app (done1 done2 : list Client.action)
    (run : Client.outcome * Client.t (W := W) * list Client.action) :
  Client.after done1 (Client.after done2 run) = Client.after (done1 ++ done2) run.
Proof. destruct run as [[o c] todo]. cbn. by rewrite app_assoc. Qed.

Lemma after_nil (run : Client.outcome * Client.t (W := W) * list Client.action) :
  Client.after [] run = run.
Proof. by destruct run as [[o c] todo]. Qed.

(** A run that is still polling after [before] goes on with the rounds
    that follow, from the position, the client and the world it reached. *)
Lemma sync_loop_app before rounds syncingID nextBatch0 filterID cli0
    nextBatch cli done :
  Client.sync_loop before syncingID nextBatch0 filterID cli0
    = (Client.Polling nextBatch, cli, done) ->
  Client.sync_loop (before ++ rounds) syncingID nextBatch0 filterID cli0
    = Client.after done (Client.sync_loop rounds syncingID nextBatch filterID cli).
Proof.
  revert nextBatch0 cli0 done.
  induction before as [|r before IH]; intros nextBatch0 cli0 done Hrun.
  - cbn in Hrun. injection Hrun as -> -> <-. by rewrite after_nil.
  - cbn [app Client.sync_loop] in *.
    destruct (Client.response r) as [resSync|resSync err].
    + case_bool_decide; [discriminate|].
      destruct (ProcessResponse _ _ _) as [[[err|]|p] w]; try discriminate.
      destruct (Client.sync_loop before _ _ _ _) as [[o c] todo] eqn:Hrest.
      cbn in Hrun. injection Hrun as -> -> <-.
      rewrite (IH _ _ _ Hrest). by rewrite after_app.
    + destruct (OnFailedSync _ _ _) as [[duration [err2|]] w]; [discriminate|].
      destruct (Client.sync_loop before _ _ _ _) as [[o c] todo] eqn:Hrest.
      cbn in Hrun. injection Hrun as -> -> <-.
      rewrite (IH _ _ _ Hrest). by rewrite after_app.
Qed.

Lemma with_world_twice (w w' : W) cli :
  Client.with_world w (Client.with_world w' cli) = Client.with_world w cli.
Proof. reflexivity. Qed.

Lemma with_world_world (w : W) cli : Client.world (Client.with_world w cli) = w.
Proof. reflexivity. Qed.

Lemma with_world_UserID (w : W) cli :
  Client.UserID (Client.with_world w cli) = Client.UserID cli.
Proof. reflexivity. Qed.

(** Every passage through the loop starts with the request, made from the
    position the loop holds. *)
Lemma sync_loop_first_action r rounds syncingID nextBatch filterID cli :
  exists todo,
    snd (Client.sync_loop (r :: rounds) syncingID nextBatch filterID cli)
    = Client.ActSyncRequest 30000 nextBatch filterID :: todo.
Proof.
  cbn [Client.sync_loop].
  destruct (Client.response r) as [resSync|resSync err].
  - case_bool_decide; [by eexists|].
    destruct (ProcessResponse _ _ _) as [[[err|]|p] w]; try by eexists.
    destruct (Client.sync_loop rounds _ _ _ _) as [[o c] todo]. by eexists.
  - destruct (OnFailedSync _ _ _) as [[duration [err2|]] w]; [by eexists|].
    destruct (Client.sync_loop rounds _ _ _ _) as [[o c] todo]. by eexists.
Qed.

(** With a filter identifier in the store, [Sync] goes straight to the
    loop, with the token it was issued, the stored position and the stored
    filter. *)
Lemma Sync_enters_loop (createFilter : string -> RespCreateFilter + error) rounds cli :
  LoadFilterID (Client.UserID cli) (Client.world cli) ≠ "" ->
  Client.Sync createFilter rounds cli
  = Client.sync_loop rounds (Client.incrementSyncingID cli).1
      (LoadNextBatch (Client.UserID cli) (Client.world cli))
      (LoadFilterID (Client.UserID cli) (Client.world cli))
      (Client.incrementSyncingID cli).2.
Proof.
  intros Hfilter. unfold Client.Sync. cbn.
  by rewrite bool_decide_eq_false_2.
Qed.

(** Without one, [Sync] asks for a filter; a failure ends it before any
    request, and a success is saved before the loop starts. *)
Lemma Sync_creates_filter (createFilter : string -> RespCreateFilter + error) rounds cli :
  LoadFilterID (Client.UserID cli) (Client.world cli) = "" ->
  let filterJSON := GetFilterJSON (Client.UserID cli) (Client.world cli) in
  match createFilter filterJSON with
  | inr err =>
      Client.Sync createFilter rounds cli
      = (Client.Returned (Some err), (Client.incrementSyncingID cli).2,
         [Client.ActCreateFilter filterJSON])
  | inl resFilter =>
      Client.Sync createFilter rounds cli
      = Client.after
          [Client.ActCreateFilter filterJSON;
           Client.ActSaveFilterID (Client.UserID cli) (FilterID resFilter)]
          (Client.sync_loop rounds (Client.incrementSyncingID cli).1
             (LoadNextBatch (Client.UserID cli) (Client.world cli))
             (FilterID resFilter)
             (Client.with_world
                (SaveFilterID (Client.UserID cli) (FilterID resFilter) (Client.world cli))
                (Client.incrementSyncingID cli).2))
  end.
Proof.
  intros Hfilter filterJSON. unfold Client.Sync. cbn.
  rewrite bool_decide_eq_true_2 by done. fold filterJSON.
  by destruct (createFilter filterJSON).
Qed.

End SyncLoop.

Section SyncLoopClaims.

Context {W : Type} `{!Storer W} `{!Syncer W}.
Implicit Types (cli : Client.t (W := W)) (rounds : list Client.round).

(** C1: in any passage through the loop, when the request succeeds and
    the live token, read after the other goroutines' increments, differs
    from the token the loop captured, [Sync] returns nil at once: the
    request is the last action, so neither [SaveNextBatch] nor
    [ProcessResponse] is called for the response, and the world is as it
    was. *)
Theorem Sync_superseded_returns_nil before r later syncingID nextBatch0 filterID
    cli0 nextBatch cli done resSync :
  Client.sync_loop before syncingID nextBatch0 filterID cli0
    = (Client.Polling nextBatch, cli, done) ->
  Client.response r = Client.FetchOk resSync ->
  Client.getSyncingID (Client.increments (Client.others r) cli) ≠ syncingID ->
  Client.sync_loop (before ++ r :: later) syncingID nextBatch0 filterID cli0
    = (Client.Returned None,
       Client.increments (Client.others r) cli,
       done ++ [Client.ActSyncRequest 30000 nextBatch filterID])
  /\ Client.world (Client.increments (Client.others r) cli) = Client.world cli.
Proof.
  intros Hbefore Hfetch Hstale. split; [|apply increments_world].
  rewrite (sync_loop_app _ _ _ _ _ _ _ _ _ Hbefore).
  cbn [Client.sync_loop]. rewrite Hfetch.
  by rewrite bool_decide_eq_true_2.
Qed.

(** C5: in any passage through the loop, when the request fails and
    [OnFailedSync] answers [(duration, nil)], the loop sleeps [duration]
    and goes on from the same position and filter, with the world as
    [OnFailedSync] left it: its only actions are the request, the call of
    the policy and the sleep, and the next request, if any, carries the
    same position. When [OnFailedSync] answers an error, [Sync] returns
    that error and the call of the policy is its last action. *)
Theorem Sync_failed_fetch before r later syncingID nextBatch0 filterID
    cli0 nextBatch cli done resSync err duration err2 w :
  Client.sync_loop before syncingID nextBatch0 filterID cli0
    = (Client.Polling nextBatch, cli, done) ->
  Client.response r = Client.FetchErr resSync err ->
  OnFailedSync resSync err (Client.world (Client.increments (Client.others r) cli))
    = (duration, err2, w) ->
  let cli1 := Client.with_world w (Client.increments (Client.others r) cli) in
  let request := Client.ActSyncRequest 30000 nextBatch filterID in
  let policy := Client.ActOnFailedSync resSync err in
  match err2 with
  | None =>
      Client.sync_loop (before ++ r :: later) syncingID nextBatch0 filterID cli0
        = Client.after (done ++ [request; policy; Client.ActSleep duration])
            (Client.sync_loop later syncingID nextBatch filterID cli1)
      /\ forall r2 later2, later = r2 :: later2 ->
           exists todo,
             snd (Client.sync_loop (before ++ r :: later) syncingID nextBatch0 filterID cli0)
             = done ++ [request; policy; Client.ActSleep duration; request] ++ todo
  | Some e =>
      Client.sync_loop (before ++ r :: later) syncingID nextBatch0 filterID cli0
        = (Client.Returned (Some e), cli1, done ++ [request; policy])
  end.
Proof.
  intros Hbefore Hfetch Hpolicy cli1 request policy.
  rewrite (sync_loop_app _ _ _ _ _ _ _ _ _ Hbefore).
  cbn [Client.sync_loop]. rewrite Hfetch, Hpolicy.
  destruct err2 as [e|]; [reflexivity|].
  rewrite after_app. split; [reflexivity|].
  intros r2 later2 ->.
  destruct (sync_loop_first_action r2 later2 syncingID nextBatch filterID cli1)
    as [todo Htodo].
  exists todo. fold cli1.
  destruct (Client.sync_loop (r2 :: later2) _ _ _ _) as [[o c] todo'].
  cbn in Htodo |- *. rewrite Htodo. by rewrite <- !app_assoc.
Qed.

(** C4: in any passage through the loop with a successful request and a
    live token equal to the captured one, [SaveNextBatch] is called with
    the position of the response before [ProcessResponse] is; the world
    [ProcessResponse] runs in holds that position; and when
    [ProcessResponse] returns an error, [Sync] returns it, with nothing
    done after, and the store still holds the new position. The last two
    points use that a position saved is the position loaded, and that the
    syncer leaves the saved position alone. *)
Theorem Sync_saves_position_before_processing before r later syncingID nextBatch0
    filterID cli0 nextBatch cli done resSync :
  (forall userID token (w : W),
      LoadNextBatch userID (SaveNextBatch userID token w) = token) ->
  (forall res since (w w' : W) out userID,
      ProcessResponse res since w = (out, w') ->
      LoadNextBatch userID w' = LoadNextBatch userID w) ->
  Client.sync_loop before syncingID nextBatch0 filterID cli0
    = (Client.Polling nextBatch, cli, done) ->
  Client.response r = Client.FetchOk resSync ->
  Client.getSyncingID (Client.increments (Client.others r) cli) = syncingID ->
  let cli1 := Client.increments (Client.others r) cli in
  let w1 := SaveNextBatch (Client.UserID cli) (Resp_NextBatch resSync) (Client.world cli) in
  let started :=
    done ++ [Client.ActSyncRequest 30000 nextBatch filterID;
             Client.ActSaveNextBatch (Client.UserID cli) (Resp_NextBatch resSync);
             Client.ActProcessResponse resSync nextBatch] in
  (exists todo,
      snd (Client.sync_loop (before ++ r :: later) syncingID nextBatch0 filterID cli0)
      = started ++ todo)
  /\ LoadNextBatch (Client.UserID cli) w1 = Resp_NextBatch resSync
  /\ forall e w2,
       ProcessResponse resSync nextBatch w1 = (Ok (Some e), w2) ->
       Client.sync_loop (before ++ r :: later) syncingID nextBatch0 filterID cli0
         = (Client.Returned (Some e), Client.with_world w2 cli1, started)
       /\ LoadNextBatch (Client.UserID cli) w2 = Resp_NextBatch resSync.
Proof.
  intros Hload Hkeep Hbefore Hfetch Hlive cli1 w1 started.
  assert (Hrun :
    Client.sync_loop (before ++ r :: later) syncingID nextBatch0 filterID cli0
    = Client.after done
        (let '(res, w) := ProcessResponse resSync nextBatch w1 in
         match res with
         | Panic p =>
             (Client.Panicked p, Client.with_world w cli1,
              [Client.ActSyncRequest 30000 nextBatch filterID;
               Client.ActSaveNextBatch (Client.UserID cli) (Resp_NextBatch resSync);
               Client.ActProcessResponse resSync nextBatch])
         | Ok (Some e) =>
             (Client.Returned (Some e), Client.with_world w cli1,
              [Client.ActSyncRequest 30000 nextBatch filterID;
               Client.ActSaveNextBatch (Client.UserID cli) (Resp_NextBatch resSync);
               Client.ActProcessResponse resSync nextBatch])
         | Ok None =>
             Client.after
               [Client.ActSyncRequest 30000 nextBatch filterID;
                Client.ActSaveNextBatch (Client.UserID cli) (Resp_NextBatch resSync);
                Client.ActProcessResponse resSync nextBatch]
               (Client.sync_loop later syncingID (Resp_NextBatch resSync) filterID
                  (Client.with_world w cli1))
         end)).
  { rewrite (sync_loop_app _ _ _ _ _ _ _ _ _ Hbefore).
    cbn [Client.sync_loop]. rewrite Hfetch.
    rewrite bool_decide_eq_false_2 by (intros Hne; by apply Hne).
    rewrite with_world_world.
    rewrite !increments_UserID, !increments_world. fold w1.
    destruct (ProcessResponse resSync nextBatch w1) as [[[e|]|p] w];
      by rewrite with_world_twice. }
  split; [|split].
  - rewrite Hrun.
    destruct (ProcessResponse resSync nextBatch w1) as [[[e|]|p] w]; cbn.
    + exists []. by rewrite app_nil_r.
    + destruct (Client.sync_loop later _ _ _ _) as [[o c] todo]. cbn.
      exists todo. subst started. by rewrite <- !app_assoc.
    + exists []. by rewrite app_nil_r.
  - apply Hload.
  - intros e w2 Hproc. split.
    + rewrite Hrun, Hproc. reflexivity.
    + rewrite (Hkeep _ _ _ _ _ (Client.UserID cli) Hproc). apply Hload.
Qed.

End SyncLoopClaims.

(** ** The state table *)

Lemma GetStateEvent_member_entry (frame : Frame) (userID : string) (event : Event) :
  GetStateEvent frame "m.frame.member" userID = Some event <-> member_entry frame userID event.
Proof.
  unfold GetStateEvent, member_entry. split.
  - destruct (State frame !! "m.frame.member") as [inner|] eqn:Htype; cbn.
    + intros Hkey. by exists inner.
    + by rewrite lookup_empty.
  - intros [inner [-> Hkey]]. exact Hkey.
Qed.

(** [UpdateState] on an event with a state key returns, replaces the entry
    of its type and key, and leaves the other entries as they were. *)
Lemma UpdateState_clobbers (frame : Frame) (event : Event) (key : string) :
  StateKey event = Some key ->
  (UpdateState frame event).1 = Ok tt
  /\ GetStateEvent (UpdateState frame event).2 (Type_ event) key = Some event
  /\ forall eventType stateKey,
       (eventType, stateKey) ≠ (Type_ event, key) ->
       GetStateEvent (UpdateState frame event).2 eventType stateKey
       = GetStateEvent frame eventType stateKey.
Proof.
  intros Hkey. unfold UpdateState, GetStateEvent. rewrite Hkey. cbn.
  split; [reflexivity|]. split.
  - rewrite lookup_insert_eq. cbn. apply lookup_insert_eq.
  - intros eventType stateKey Hne.
    destruct (decide (eventType = Type_ event)) as [->|Htype].
    + rewrite lookup_insert_eq. cbn.
      rewrite lookup_insert_ne by congruence.
      destruct (State frame !! Type_ event) as [inner|] eqn:Hinner.
      * by rewrite Hinner.
      * by rewrite lookup_insert_eq.
    + rewrite lookup_insert_ne by done.
      destruct (State frame !! Type_ event) as [inner|] eqn:Hinner; [done|].
      by rewrite lookup_insert_ne.
Qed.

(** [UpdateState] reads the state key without a test: on an event without
    one it panics on the nil pointer. *)
Lemma UpdateState_nil_StateKey (frame : Frame) (event : Event) :
  StateKey event = None -> (UpdateState frame event).1 = Panic nil_dereference.
Proof. intros Hkey. unfold UpdateState. by rewrite Hkey. Qed.

Lemma UpdateState_panics_with_nil (frame : Frame) (event : Event) (r : string) :
  (UpdateState frame event).1 = Panic r -> r = nil_dereference.
Proof. unfold UpdateState. destruct (StateKey event); cbn; by intros [=]. Qed.

(** C8: when the state table of the frame has no "m.frame.member" entry
    for the user, or has one whose content has no "membership" or one that
    is not a string, [GetMembershipState] returns the string "leave". *)
Theorem GetMembershipState_defaults_to_leave (frame : Frame) (userID : string) :
  (forall event, ~ member_entry frame userID event)
  \/ (exists event,
        member_entry frame userID event
        /\ (Content event !! "membership" = None
            \/ exists v, Content event !! "membership" = Some v
                         /\ forall str, v ≠ JString str)) ->
  GetMembershipState frame userID = "leave".
Proof.
  intros Hentry. unfold GetMembershipState.
  destruct (GetStateEvent frame "m.frame.member" userID) as [event|] eqn:Hget;
    [|reflexivity].
  apply GetStateEvent_member_entry in Hget.
  destruct Hentry as [Hnone|[event' [Hentry Hcontent]]].
  - by destruct (Hnone event).
  - assert (event' = event) as ->.
    { destruct Hget as [inner [Hi Hk]], Hentry as [inner' [Hi' Hk']]. congruence. }
    destruct Hcontent as [->|[v [-> Hv]]]; [reflexivity|].
    destruct v; try reflexivity. by destruct (Hv s).
Qed.

Lemma GetMembershipState_defaults_to_leave_witness :
  GetMembershipState (NewFrame "!a") Sample.me = "leave"
  /\ GetMembershipState
       (UpdateState (NewFrame "!a") (Sample.event "m.frame.member" (Some Sample.me) None)).2
       Sample.me = "leave"
  /\ GetMembershipState
       (UpdateState (NewFrame "!a")
          (Sample.event "m.frame.member" (Some Sample.me) (Some (JNumber 1)))).2
       Sample.me = "leave".
Proof.
  split; [|split].
  - apply (GetMembershipState_defaults_to_leave (NewFrame "!a") Sample.me).
    left. intros event [inner [Hinner _]]. vm_compute in Hinner. discriminate.
  - apply (GetMembershipState_defaults_to_leave
             (UpdateState (NewFrame "!a")
                (Sample.event "m.frame.member" (Some Sample.me) None)).2 Sample.me).
    right. exists (Sample.event "m.frame.member" (Some Sample.me) None).
    split; [|left; reflexivity].
    apply GetStateEvent_member_entry. reflexivity.
  - apply (GetMembershipState_defaults_to_leave
             (UpdateState (NewFrame "!a")
                (Sample.event "m.frame.member" (Some Sample.me) (Some (JNumber 1)))).2
             Sample.me).
    right. exists (Sample.event "m.frame.member" (Some Sample.me) (Some (JNumber 1))).
    split; [apply GetStateEvent_member_entry; reflexivity|].
    right. exists (JNumber 1). split; [reflexivity|discriminate].
Defined.

(** ** Reconciliation *)

Lemma append_assoc (s1 s2 s3 : string) : (s1 +:+ s2) +:+ s3 = s1 +:+ s2 +:+ s3.
Proof.
  induction s1 as [|c s1 IH]; [reflexivity|].
  change (String c ((s1 +:+ s2) +:+ s3) = String c (s1 +:+ s2 +:+ s3)).
  by rewrite IH.
Qed.

Section Reconciliation.

Context {L : Type}.
Variable debug_Stack : string.
Variable range : forall A : Type, gmap string A -> list (string * A).
Hypothesis range_perm :
  forall (A : Type) (m : gmap string A), range A m ≡ₚ map_to_list m.

Implicit Types (s : DefaultSyncer.t (L := L)) (h : DefaultSyncer.heap (L := L)).
Implicit Types (I : DefaultSyncer.heap (L := L) -> Prop) (T : effect -> Prop)
               (R : string -> Prop).

Local Abbreviation exec := (DefaultSyncer.exec (L := L)).

(** *** The execution monad *)

Lemma bind_run {A B : Type} (m : exec A) (k : A -> exec B) h :
  (m ≫= k) h
  = match m h with
    | (Ok a, h1, t1) => let '(r, h2, t2) := k a h1 in (r, h2, t1 ++ t2)
    | (Panic r, h1, t1) => (Panic r, h1, t1)
    end.
Proof.
  unfold mbind, DefaultSyncer.exec_bind, DefaultSyncer.bind.
  destruct (m h) as [[[a|r] h1] t1]; [|reflexivity].
  by destruct (k a h1) as [[r2 h2] t2].
Qed.

Lemma ret_bind {A B : Type} (a : A) (k : A -> exec B) h :
  (mret a ≫= k) h = k a h.
Proof. rewrite bind_run. cbn. by destruct (k a h) as [[r2 h2] t2]. Qed.

Lemma bind_ext {A B : Type} (m : exec A) (k1 k2 : A -> exec B) h :
  (forall a h1, k1 a h1 = k2 a h1) -> (m ≫= k1) h = (m ≫= k2) h.
Proof.
  intros Hk. rewrite !bind_run.
  destruct (m h) as [[[a|r] h1] t1]; [|reflexivity]. by rewrite Hk.
Qed.

Lemma for_each_cons {A : Type} (x : A) (l : list A) (body : A -> exec unit) :
  DefaultSyncer.for_each (x :: l) body
  = (body x ≫= fun _ => DefaultSyncer.for_each l body).
Proof. reflexivity. Qed.

Lemma run_spec_ret I T R {A : Type} (a : A) : run_spec I T R (mret a : exec A).
Proof.
  intros h Hh. cbn. split; [exact Hh|]. split; [constructor|discriminate].
Qed.

Lemma run_spec_bind I T R {A B : Type} (m : exec A) (k : A -> exec B) :
  run_spec I T R m -> (forall a, run_spec I T R (k a)) -> run_spec I T R (m ≫= k).
Proof.
  intros Hm Hk h Hh. rewrite bind_run.
  destruct (Hm h Hh) as (HI & HT & HR).
  destruct (m h) as [[[a|r] h1] t1]; cbn in *;
    [|split; [done|]; split; [done|]; intros r0 [= <-]; by apply HR].
  destruct (Hk a h1 HI) as (HI' & HT' & HR').
  destruct (k a h1) as [[r2 h2] t2]; cbn in *.
  split; [done|]. split; [by apply Forall_app|done].
Qed.

Lemma run_spec_for_each I T R {A : Type} (l : list A) (body : A -> exec unit) :
  (forall x, x ∈ l -> run_spec I T R (body x)) ->
  run_spec I T R (DefaultSyncer.for_each l body).
Proof.
  induction l as [|x l IH]; intros Hbody.
  - apply run_spec_ret.
  - rewrite for_each_cons. apply run_spec_bind.
    + apply Hbody. by left.
    + intros _. apply IH. intros y Hy. apply Hbody. by right.
Qed.

Lemma bind_panics_l {A B : Type} (m : exec A) (k : A -> exec B) h :
  panics (m h) -> panics ((m ≫= k) h).
Proof.
  intros [r Hr]. rewrite bind_run.
  destruct (m h) as [[[a|r'] h1] t1]; cbn in *; [discriminate|]. by exists r'.
Qed.

Lemma bind_panics_r {A B : Type} (m : exec A) (k : A -> exec B) h :
  (forall a h1, panics (k a h1)) -> panics ((m ≫= k) h).
Proof.
  intros Hk. rewrite bind_run.
  destruct (m h) as [[[a|r'] h1] t1]; cbn; [|by exists r'].
  destruct (Hk a h1) as [r Hr].
  destruct (k a h1) as [[r2 h2] t2]; cbn in *. by exists r.
Qed.

Lemma for_each_panics {A : Type} (l : list A) (body : A -> exec unit) (x : A) :
  x ∈ l -> (forall h, panics (body x h)) ->
  forall h, panics (DefaultSyncer.for_each l body h).
Proof.
  intros Hx Hbody. induction l as [|y l IH]; [by apply elem_of_nil in Hx|].
  intros h. rewrite for_each_cons.
  apply elem_of_cons in Hx as [->|Hx].
  - apply bind_panics_l, Hbody.
  - apply bind_panics_r. intros _ h1. by apply IH.
Qed.

(** *** The calls of the syncer *)

Lemma getOrCreateFrame_spec I T R frameID :
  allows I T R frameID -> run_spec I T R (DefaultSyncer.getOrCreateFrame frameID).
Proof.
  intros (Hframe & _ & Heff & _) h Hh. unfold DefaultSyncer.getOrCreateFrame.
  destruct (InMemory.LoadFrame frameID (DefaultSyncer.store h)) as [frame|]; cbn.
  - split; [exact Hh|]. split; [|discriminate].
    constructor; [by apply Heff|constructor].
  - split; [by apply Hframe|]. split; [|discriminate].
    constructor; [by apply Heff|]. constructor; [by apply Heff|constructor].
Qed.

Lemma frame_UpdateState_spec I T R frameID event :
  allows I T R frameID ->
  run_spec I T R (DefaultSyncer.frame_UpdateState frameID event).
Proof.
  intros (Hframe & _ & Heff & Hnil) h Hh. unfold DefaultSyncer.frame_UpdateState.
  destruct (Frames (DefaultSyncer.store h) !! frameID) as [frame|]; cbn.
  - pose proof (UpdateState_panics_with_nil frame event) as Hpanic.
    destruct (UpdateState frame event) as [r frame1]; cbn in *.
    split; [by apply Hframe|]. split; [constructor; [by apply Heff|constructor]|].
    intros r' ->. by rewrite (Hpanic r').
  - split; [exact Hh|]. split; [constructor|]. by intros r [= <-].
Qed.

Lemma call_from_spec I T R frameID index fns event :
  allows I T R frameID ->
  FrameID event = frameID ->
  (forall fn c r, fn ∈ fns -> (fn event c).1 = Panic r -> R r) ->
  run_spec I T R (DefaultSyncer.call_from index fns event).
Proof.
  intros (_ & Hclosure & Heff & _) Hevent. revert index.
  induction fns as [|fn fns IH]; intros index Hfns.
  - apply run_spec_ret.
  - cbn [DefaultSyncer.call_from]. apply run_spec_bind.
    + intros h Hh. unfold DefaultSyncer.call.
      pose proof (Hfns fn (DefaultSyncer.closures h)) as Hfn.
      destruct (fn event (DefaultSyncer.closures h)) as [r c]; cbn in *.
      split; [by apply Hclosure|]. split; [constructor; [by apply Heff|constructor]|].
      intros r' ->. apply Hfn; [by left|reflexivity].
    + intros _. apply IH. intros fn' c r Hin. apply Hfns. by right.
Qed.

Lemma notifyListeners_spec I T R frameID s event :
  allows I T R frameID ->
  listeners_panic_within R s ->
  FrameID event = frameID ->
  run_spec I T R (DefaultSyncer.notifyListeners s event).
Proof.
  intros Hallows Hlisteners Hevent. unfold DefaultSyncer.notifyListeners.
  destruct (DefaultSyncer.listeners s !! Type_ event) as [fns|] eqn:Hfns.
  - apply (call_from_spec _ _ _ frameID); [done..|].
    intros fn c r Hin. by apply (Hlisteners _ _ _ _ _ _ Hfns).
  - apply run_spec_ret.
Qed.

Lemma update_and_notify_spec I T R frameID s event :
  allows I T R frameID ->
  listeners_panic_within R s ->
  run_spec I T R
    (DefaultSyncer.frame_UpdateState frameID (set_FrameID frameID event) ≫= fun _ =>
     DefaultSyncer.notifyListeners s (set_FrameID frameID event)).
Proof.
  intros Hallows Hlisteners. apply run_spec_bind.
  - by apply frame_UpdateState_spec.
  - intros _. by apply (notifyListeners_spec _ _ _ frameID).
Qed.

Lemma process_joined_spec I T R s frameID frameData :
  allows I T R frameID ->
  listeners_panic_within R s ->
  run_spec I T R (DefaultSyncer.process_joined s frameID frameData).
Proof.
  intros Hallows Hlisteners. unfold DefaultSyncer.process_joined.
  apply run_spec_bind; [by apply getOrCreateFrame_spec|]. intros _.
  apply run_spec_bind.
  { apply run_spec_for_each. intros event _. by apply update_and_notify_spec. }
  intros _. apply run_spec_bind.
  { apply run_spec_for_each. intros event _.
    by apply (notifyListeners_spec _ _ _ frameID). }
  intros _. apply run_spec_for_each. intros event _.
  by apply (notifyListeners_spec _ _ _ frameID).
Qed.

Lemma process_invited_spec I T R s frameID frameData :
  allows I T R frameID ->
  listeners_panic_within R s ->
  run_spec I T R (DefaultSyncer.process_invited s frameID frameData).
Proof.
  intros Hallows Hlisteners. unfold DefaultSyncer.process_invited.
  apply run_spec_bind; [by apply getOrCreateFrame_spec|]. intros _.
  apply run_spec_for_each. intros event _. by apply update_and_notify_spec.
Qed.

Lemma process_left_spec I T R s frameID frameData :
  allows I T R frameID ->
  listeners_panic_within R s ->
  run_spec I T R (DefaultSyncer.process_left s frameID frameData).
Proof.
  intros Hallows Hlisteners. unfold DefaultSyncer.process_left.
  apply run_spec_bind; [by apply getOrCreateFrame_spec|]. intros _.
  apply run_spec_for_each. intros event _. unfold DefaultSyncer.process_left_event.
  destruct (StateKey event); [by apply update_and_notify_spec|apply run_spec_ret].
Qed.

(** The keys [range] visits are the keys of the map. *)
Lemma elem_of_range {A : Type} (m : gmap string A) (k : string) (v : A) :
  (k, v) ∈ range A m <-> m !! k = Some v.
Proof. rewrite (range_perm A m). apply elem_of_map_to_list. Qed.

Lemma reconcile_spec I T R s res :
  (forall frameID,
      is_Some (Join res !! frameID) \/ is_Some (Invite res !! frameID)
      \/ is_Some (Leave res !! frameID) ->
      allows I T R frameID) ->
  listeners_panic_within R s ->
  run_spec I T R (DefaultSyncer.reconcile range s res).
Proof.
  intros Hallows Hlisteners. unfold DefaultSyncer.reconcile.
  apply run_spec_bind.
  { apply run_spec_for_each. intros [frameID frameData] Hin.
    apply elem_of_range in Hin. apply process_joined_spec; [|done].
    apply Hallows. left. by exists frameData. }
  intros _. apply run_spec_bind.
  { apply run_spec_for_each. intros [frameID frameData] Hin.
    apply elem_of_range in Hin. apply process_invited_spec; [|done].
    apply Hallows. right. left. by exists frameData. }
  intros _. apply run_spec_for_each. intros [frameID frameData] Hin.
  apply elem_of_range in Hin. apply process_left_spec; [|done].
  apply Hallows. right. right. by exists frameData.
Qed.

(** The main pass never loses a frame: a frame the store holds is still
    held afterwards, so the pointer [getOrCreateFrame] returned stays
    valid while the frame is processed. *)
Lemma reconcile_keeps_frames s res (F : string) h :
  is_Some (Frames (DefaultSyncer.store h) !! F) ->
  is_Some (Frames (DefaultSyncer.store (DefaultSyncer.reconcile range s res h).1.2) !! F).
Proof.
  intros Hheld.
  assert (Hspec :
    run_spec (fun h1 => is_Some (Frames (DefaultSyncer.store h1) !! F))
             (fun _ => True) (fun _ => True) (DefaultSyncer.reconcile range s res)).
  { apply reconcile_spec; [|done]. intros frameID _. repeat split; [|done].
    intros h1 frame Hh1. cbn. rewrite lookup_insert. by case_decide. }
  by destruct (Hspec h Hheld) as (HI & _).
Qed.

Lemma getOrCreateFrame_holds (frameID : string) h :
  is_Some (Frames (DefaultSyncer.store (DefaultSyncer.getOrCreateFrame frameID h).1.2)
             !! frameID).
Proof.
  unfold DefaultSyncer.getOrCreateFrame, InMemory.LoadFrame.
  destruct (Frames (DefaultSyncer.store h) !! frameID) as [frame|] eqn:Hframe; cbn.
  - by rewrite Hframe.
  - by rewrite lookup_insert_eq.
Qed.

End Reconciliation.

Section ReconciliationClaims.

Context {L : Type}.
Variable debug_Stack : string.
Variable range : forall A : Type, gmap string A -> list (string * A).
Hypothesis range_perm :
  forall (A : Type) (m : gmap string A), range A m ≡ₚ map_to_list m.

Implicit Types (s : DefaultSyncer.t (L := L)) (h : DefaultSyncer.heap (L := L)).

(** C3: with the empty since position, [ProcessResponse] returns nil and
    has done nothing: the heap (the store with its frames and state
    tables, the memory of the callbacks) is as it was, and there is no
    effect at all, so no frame was loaded or saved, no state table
    updated and no listener called. The response is left as it was. *)
Theorem ProcessResponse_skips_initial_sync s (res : RespSync) h :
  DefaultSyncer.ProcessResponse debug_Stack range s res "" h = (Ok None, h, [])
  /\ DefaultSyncer.shouldProcessResponse range s res "" = (false, res).
Proof. split; reflexivity. Qed.

(** C6: for a batch that passes [shouldProcessResponse], a panic of the
    main pass, whatever raised it, ends [ProcessResponse] with one error,
    whose message is the formatted text and so contains the user ID and
    the since position; without a panic the result is nil. In no case
    does [ProcessResponse] itself panic. *)
Theorem ProcessResponse_recovers s (res res1 : RespSync) (since : string) h :
  DefaultSyncer.shouldProcessResponse range s res since = (true, res1) ->
  (forall r, (DefaultSyncer.ProcessResponse debug_Stack range s res since h).1.1 ≠ Panic r)
  /\ match DefaultSyncer.reconcile range s res1 h with
     | (Ok _, h1, t) =>
         DefaultSyncer.ProcessResponse debug_Stack range s res since h = (Ok None, h1, t)
     | (Panic r, h1, t) =>
         exists err,
           DefaultSyncer.ProcessResponse debug_Stack range s res since h
             = (Ok (Some err), h1, t)
           /\ err = DefaultSyncer.panicked debug_Stack s since r
           /\ contains (DefaultSyncer.UserID s) err
           /\ contains since err
     end.
Proof.
  intros Hshould. unfold DefaultSyncer.ProcessResponse. rewrite Hshould. cbn.
  unfold DefaultSyncer.recover.
  destruct (DefaultSyncer.reconcile range s res1 h) as [[[[]|r] h1] t]; cbn.
  - split; [discriminate|reflexivity].
  - split; [discriminate|]. eexists. split; [reflexivity|]. split; [reflexivity|].
    unfold DefaultSyncer.panicked. split.
    + by exists "ProcessResponse panicked! userID=",
        (" since=" +:+ since +:+ " panic=" +:+ r +:+ LF +:+ debug_Stack).
    + exists ("ProcessResponse panicked! userID=" +:+ DefaultSyncer.UserID s +:+ " since="),
        (" panic=" +:+ r +:+ LF +:+ debug_Stack).
      by rewrite !append_assoc.
Qed.

Lemma process_left_event_Some s (frameID : string) (event : Event) (key : string) :
  StateKey event = Some key ->
  DefaultSyncer.process_left_event s frameID event
  = (DefaultSyncer.frame_UpdateState frameID (set_FrameID frameID event) ≫= fun _ =>
     DefaultSyncer.notifyListeners s (set_FrameID frameID event)).
Proof. intros Hkey. unfold DefaultSyncer.process_left_event. by rewrite Hkey. Qed.

Lemma process_left_event_None s (frameID : string) (event : Event) :
  StateKey event = None ->
  DefaultSyncer.process_left_event s frameID event = mret tt.
Proof. intros Hkey. unfold DefaultSyncer.process_left_event. by rewrite Hkey. Qed.

(** The timeline of a left frame is processed as if the events without a
    state key were not in it. *)
Lemma left_timeline_filter s (frameID : string) (timeline : list Event) h :
  DefaultSyncer.for_each timeline (DefaultSyncer.process_left_event s frameID) h
  = DefaultSyncer.for_each (List.filter has_StateKey timeline)
      (fun event =>
         DefaultSyncer.frame_UpdateState frameID (set_FrameID frameID event) ≫= fun _ =>
         DefaultSyncer.notifyListeners s (set_FrameID frameID event)) h.
Proof.
  revert h. induction timeline as [|event timeline IH]; intros h; [reflexivity|].
  rewrite for_each_cons. cbn [List.filter].
  unfold has_StateKey at 1.
  destruct (StateKey event) as [key|] eqn:Hkey.
  - rewrite (process_left_event_Some _ _ _ _ Hkey), for_each_cons.
    apply bind_ext. intros _ h1. apply IH.
  - rewrite (process_left_event_None _ _ _ Hkey), ret_bind. apply IH.
Qed.

(** C7: in the left bucket, a timeline event without a state key does
    nothing: the heap is as it was and there is no effect. A timeline
    event with a state key updates the state table of the frame, where
    it replaces the entry of its type and key, and is then handed to the
    listeners. So the timeline is processed as the list of its events with
    a state key, each updating the state and notified in turn. *)
Theorem left_timeline_needs_StateKey s (frameID : string) :
  (forall event h,
      StateKey event = None ->
      DefaultSyncer.process_left_event s frameID event h = (Ok tt, h, []))
  /\ (forall event key frame h,
        StateKey event = Some key ->
        Frames (DefaultSyncer.store h) !! frameID = Some frame ->
        let event1 := set_FrameID frameID event in
        let frame1 := (UpdateState frame event1).2 in
        let h1 :=
          {| DefaultSyncer.store :=
               {| Filters := Filters (DefaultSyncer.store h);
                  NextBatch := NextBatch (DefaultSyncer.store h);
                  Frames := <[frameID := frame1]> (Frames (DefaultSyncer.store h)) |};
             DefaultSyncer.closures := DefaultSyncer.closures h |} in
        GetStateEvent frame1 (Type_ event) key = Some event1
        /\ DefaultSyncer.process_left_event s frameID event h
           = let '(r, h2, t) := DefaultSyncer.notifyListeners s event1 h1 in
             (r, h2, EffUpdateState frameID event1 :: t))
  /\ (forall frameData h,
        DefaultSyncer.process_left s frameID frameData h
        = (DefaultSyncer.getOrCreateFrame frameID ≫= fun _ =>
           DefaultSyncer.for_each (List.filter has_StateKey (LeaveTimeline frameData))
             (fun event =>
                DefaultSyncer.frame_UpdateState frameID (set_FrameID frameID event) ≫= fun _ =>
                DefaultSyncer.notifyListeners s (set_FrameID frameID event))) h).
Proof.
  split; [|split].
  - intros event h Hkey. by rewrite process_left_event_None.
  - intros event key frame h Hkey Hframe event1 frame1 h1.
    destruct (UpdateState_clobbers frame event1 key Hkey) as (Hok & Hget & _).
    split; [exact Hget|].
    rewrite (process_left_event_Some _ _ _ _ Hkey), bind_run.
    unfold DefaultSyncer.frame_UpdateState at 1. rewrite Hframe.
    fold event1. subst h1 frame1.
    destruct (UpdateState frame event1) as [r frame1]. cbn in Hok. subst r. cbn.
    by destruct (DefaultSyncer.notifyListeners s event1 _) as [[r2 h2] t2].
  - intros frameData h. unfold DefaultSyncer.process_left. rewrite !bind_run.
    destruct (DefaultSyncer.getOrCreateFrame frameID h) as [[[frame|r] h1] t1];
      [|reflexivity].
    by rewrite left_timeline_filter.
Qed.

(** *** Events without a state key in the joined and invited buckets *)

Lemma keyless_update_panics s (frameID : string) (event : Event) h :
  StateKey event = None ->
  exists h1 t,
    (DefaultSyncer.frame_UpdateState frameID (set_FrameID frameID event) ≫= fun _ =>
     DefaultSyncer.notifyListeners s (set_FrameID frameID event)) h
    = (Panic nil_dereference, h1, t)
    /\ Forall (fun eff => eff = EffUpdateState frameID (set_FrameID frameID event)) t.
Proof.
  intros Hkey. rewrite bind_run. unfold DefaultSyncer.frame_UpdateState.
  destruct (Frames (DefaultSyncer.store h) !! frameID) as [frame|].
  - pose proof (UpdateState_nil_StateKey frame (set_FrameID frameID event) Hkey) as Hnil.
    destruct (UpdateState frame (set_FrameID frameID event)) as [r frame1].
    cbn in Hnil. subst r. eexists _, _. split; [reflexivity|].
    by repeat constructor.
  - eexists _, _. split; [reflexivity|constructor].
Qed.

Lemma keyless_state_panics s (frameID : string) (events : list Event) (event : Event) h :
  event ∈ events -> StateKey event = None ->
  panics (DefaultSyncer.for_each events (fun event =>
            DefaultSyncer.frame_UpdateState frameID (set_FrameID frameID event) ≫= fun _ =>
            DefaultSyncer.notifyListeners s (set_FrameID frameID event)) h).
Proof.
  intros Hin Hkey. revert h. apply (for_each_panics _ _ event Hin). intros h.
  destruct (keyless_update_panics s frameID event h Hkey) as (h1 & t & Hrun & _).
  exists nil_dereference. by rewrite Hrun.
Qed.

Lemma reconcile_keyless_panics s (res : RespSync) (frameID : string) h :
  (exists frameData event,
      Join res !! frameID = Some frameData
      /\ event ∈ JoinState frameData /\ StateKey event = None)
  \/ (exists frameData event,
        Invite res !! frameID = Some frameData
        /\ event ∈ InviteState frameData /\ StateKey event = None) ->
  panics (DefaultSyncer.reconcile range s res h).
Proof.
  intros [(frameData & event & Hframe & Hin & Hkey)
         |(frameData & event & Hframe & Hin & Hkey)];
    unfold DefaultSyncer.reconcile.
  - apply bind_panics_l. revert h.
    apply (for_each_panics _ _ (frameID, frameData)); [by apply elem_of_range|].
    intros h. unfold DefaultSyncer.process_joined.
    apply bind_panics_r. intros _ h1. apply bind_panics_l.
    by apply (keyless_state_panics _ _ _ event).
  - apply bind_panics_r. intros _ h1. apply bind_panics_l. revert h1.
    apply (for_each_panics _ _ (frameID, frameData)); [by apply elem_of_range|].
    intros h1. unfold DefaultSyncer.process_invited.
    apply bind_panics_r. intros _ h2.
    by apply (keyless_state_panics _ _ _ event).
Qed.

(** When no callback panics, the only panic of the main pass is the one
    on a nil pointer. *)
Lemma reconcile_panics_with_nil s (res : RespSync) h (r : string) :
  listeners_return s ->
  (DefaultSyncer.reconcile range s res h).1.1 = Panic r -> r = nil_dereference.
Proof.
  intros Hreturn Hpanic.
  assert (Hspec : run_spec (fun _ => True) (fun _ => True) (fun r => r = nil_dereference)
                    (DefaultSyncer.reconcile range s res)).
  { apply (reconcile_spec range range_perm).
    - intros frameID _. by repeat split.
    - intros eventType fns fn event c r' Hfns Hin Hr.
      rewrite (Hreturn _ _ _ event c Hfns Hin) in Hr. discriminate. }
  destruct (Hspec h Logic.I) as (_ & _ & HR). by apply HR.
Qed.

(** C10: a state event of the joined or invited bucket goes to
    [UpdateState] whether or not it has a state key, and [UpdateState]
    reads the key without a test. So the update of an event without a
    state key panics on the nil pointer, before any listener is called
    for the event; and a processed batch that holds such an event in the
    joined or invited bucket, as the main pass receives them, ends in a
    panic, which [ProcessResponse] returns as its error: the panic on the
    nil pointer when no callback panics. *)
Theorem keyless_state_event_reaches_nil_dereference s (res res1 : RespSync)
    (since : string) h (frameID : string) :
  DefaultSyncer.shouldProcessResponse range s res since = (true, res1) ->
  (exists frameData event,
      Join res1 !! frameID = Some frameData
      /\ event ∈ JoinState frameData /\ StateKey event = None)
  \/ (exists frameData event,
        Invite res1 !! frameID = Some frameData
        /\ event ∈ InviteState frameData /\ StateKey event = None) ->
  (forall frame event, StateKey event = None ->
      (UpdateState frame event).1 = Panic nil_dereference)
  /\ (forall event h0, StateKey event = None ->
        exists h1 t,
          (DefaultSyncer.frame_UpdateState frameID (set_FrameID frameID event) ≫= fun _ =>
           DefaultSyncer.notifyListeners s (set_FrameID frameID event)) h0
          = (Panic nil_dereference, h1, t)
          /\ Forall (fun eff => eff = EffUpdateState frameID (set_FrameID frameID event)) t)
  /\ exists r h1 t,
       DefaultSyncer.reconcile range s res1 h = (Panic r, h1, t)
       /\ DefaultSyncer.ProcessResponse debug_Stack range s res since h
          = (Ok (Some (DefaultSyncer.panicked debug_Stack s since r)), h1, t)
       /\ (listeners_return s -> r = nil_dereference).
Proof.
  intros Hshould Hkeyless.
  split; [intros frame event; apply UpdateState_nil_StateKey|].
  split; [intros event h0; apply keyless_update_panics|].
  destruct (reconcile_keyless_panics s res1 frameID h Hkeyless) as [r Hr].
  pose proof (reconcile_panics_with_nil s res1 h r) as Hnil.
  unfold DefaultSyncer.ProcessResponse. rewrite Hshould. cbn.
  unfold DefaultSyncer.recover.
  destruct (DefaultSyncer.reconcile range s res1 h) as [[out h1] t].
  cbn in Hr, Hnil. subst out. exists r, h1, t.
  split; [reflexivity|]. split; [reflexivity|]. intros Hreturn. by apply Hnil.
Qed.

(** *** The join-race suppression *)

Lemma scan_timeline_cases s (frameID : string) (latest_first : list Event)
    (resp : RespSync) :
  DefaultSyncer.scan_timeline s frameID latest_first resp = resp
  \/ DefaultSyncer.scan_timeline s frameID latest_first resp = delete_frame frameID resp.
Proof.
  induction latest_first as [|e earlier IH]; cbn; [by left|].
  destruct (DefaultSyncer.is_own_member_event s e); [|exact IH].
  destruct (assert_string (Content e !! "membership")) as [mship|]; [|exact IH].
  case_bool_decide; [|exact IH].
  destruct (Join resp !! frameID); [by right|exact IH].
Qed.

Lemma scan_timeline_rejoined s (frameID : string) (latest_first : list Event)
    (resp : RespSync) :
  rejoined s latest_first = true ->
  is_Some (Join resp !! frameID) ->
  DefaultSyncer.scan_timeline s frameID latest_first resp = delete_frame frameID resp.
Proof.
  intros Hrejoined [frameData Hframe].
  induction latest_first as [|e earlier IH]; [discriminate|].
  cbn in Hrejoined |- *.
  destruct (DefaultSyncer.is_own_member_event s e); cbn in Hrejoined; [|by apply IH].
  destruct (assert_string (Content e !! "membership")) as [mship|].
  - destruct (decide (mship = "join")) as [->|Hother].
    + by rewrite bool_decide_eq_true_2, Hframe.
    + rewrite (bool_decide_eq_false_2 (mship = "join")) by done.
      rewrite bool_decide_eq_false_2 in Hrejoined by congruence. by apply IH.
  - rewrite bool_decide_eq_false_2 in Hrejoined by discriminate. by apply IH.
Qed.

Lemma rejoined_rev s (timeline : list Event) :
  rejoined s (rev timeline) = rejoined s timeline.
Proof.
  unfold rejoined. apply eq_true_iff_eq. rewrite !existsb_exists.
  split; intros (e & Hin & He); exists e; (split; [|done]).
  - by apply in_rev.
  - by apply in_rev in Hin.
Qed.

(** When the most recent membership event of the user says "join", some
    membership event of the user does. *)
Lemma latest_own_membership_rejoined s (timeline : list Event) :
  latest_own_membership s timeline = Some (JString "join") ->
  rejoined s timeline = true.
Proof.
  unfold latest_own_membership. intros Hlatest.
  destruct (List.find _ _) as [e|] eqn:Hfind; [|discriminate].
  apply find_some in Hfind as [Hin Hown].
  unfold rejoined. apply existsb_exists. exists e.
  split; [by apply in_rev|]. rewrite Hown, Hlatest. reflexivity.
Qed.

(** The loop only deletes, and only from the joined and invited buckets. *)
Lemma scan_frames_shrinks s entries (resp : RespSync) :
  Leave (DefaultSyncer.scan_frames s entries resp) = Leave resp
  /\ (forall k, Join resp !! k = None ->
                 Join (DefaultSyncer.scan_frames s entries resp) !! k = None)
  /\ (forall k, Invite resp !! k = None ->
                 Invite (DefaultSyncer.scan_frames s entries resp) !! k = None).
Proof.
  revert resp. induction entries as [|[frameID frameData] entries IH]; intros resp;
    [done|].
  cbn [DefaultSyncer.scan_frames foldl]. fold (DefaultSyncer.scan_frames s entries).
  destruct (IH (DefaultSyncer.scan_timeline s frameID (rev (JoinTimeline frameData)) resp))
    as (Hleave & Hjoin & Hinvite).
  destruct (scan_timeline_cases s frameID (rev (JoinTimeline frameData)) resp)
    as [Hscan|Hscan]; rewrite Hscan in *; [done|].
  split; [done|].
  split; intros k Hk.
  - apply Hjoin. cbn. rewrite lookup_delete. by case_decide.
  - apply Hinvite. cbn. rewrite lookup_delete. by case_decide.
Qed.

Lemma scan_frames_removes s entries (resp : RespSync) (F : string)
    (frameData : JoinedFrame) :
  (F, frameData) ∈ entries ->
  rejoined s (JoinTimeline frameData) = true ->
  (Join resp !! F = None -> Invite resp !! F = None) ->
  Join (DefaultSyncer.scan_frames s entries resp) !! F = None
  /\ Invite (DefaultSyncer.scan_frames s entries resp) !! F = None.
Proof.
  intros Hin Hrejoined. revert resp.
  induction entries as [|[k d] entries IH]; intros resp Hinv;
    [by apply elem_of_nil in Hin|].
  cbn [DefaultSyncer.scan_frames foldl]. fold (DefaultSyncer.scan_frames s entries).
  destruct (scan_frames_shrinks s entries
              (DefaultSyncer.scan_timeline s k (rev (JoinTimeline d)) resp))
    as (_ & Hjoin & Hinvite).
  apply elem_of_cons in Hin as [[= <- <-]|Hin].
  - destruct (Join resp !! F) as [present|] eqn:Hpresent.
    + rewrite scan_timeline_rejoined in * by (by rewrite ?rejoined_rev, ?Hpresent).
      split; [apply Hjoin|apply Hinvite]; cbn; apply lookup_delete_eq.
    + destruct (scan_timeline_cases s F (rev (JoinTimeline frameData)) resp)
        as [Hscan|Hscan]; rewrite Hscan in *.
      * split; [by apply Hjoin|by apply Hinvite, Hinv].
      * split; [apply Hjoin|apply Hinvite]; cbn; apply lookup_delete_eq.
  - apply (IH Hin).
    destruct (scan_timeline_cases s k (rev (JoinTimeline d)) resp)
      as [Hscan|Hscan]; rewrite Hscan; [done|].
    cbn. rewrite !lookup_delete. case_decide; [done|exact Hinv].
Qed.

Lemma shouldProcessResponse_since s (res : RespSync) (since : string) :
  since ≠ "" ->
  DefaultSyncer.shouldProcessResponse range s res since
  = (true, DefaultSyncer.scan_frames s (range _ (Join res)) res).
Proof.
  intros Hsince. unfold DefaultSyncer.shouldProcessResponse.
  by rewrite bool_decide_eq_false_2.
Qed.

(** The main pass leaves alone a frame that is in none of the buckets:
    the frame the store holds for it is as it was, and no effect is about
    it. *)
Lemma reconcile_leaves_absent_frame s (res : RespSync) (F : string) h :
  Join res !! F = None -> Invite res !! F = None -> Leave res !! F = None ->
  Frames (DefaultSyncer.store (DefaultSyncer.reconcile range s res h).1.2) !! F
    = Frames (DefaultSyncer.store h) !! F
  /\ Forall (fun eff => effect_frame eff ≠ F) (DefaultSyncer.reconcile range s res h).2.
Proof.
  intros Hjoin Hinvite Hleave.
  assert (Hspec :
    run_spec (fun h1 => Frames (DefaultSyncer.store h1) !! F
                        = Frames (DefaultSyncer.store h) !! F)
             (fun eff => effect_frame eff ≠ F) (fun _ => True)
             (DefaultSyncer.reconcile range s res)).
  { apply (reconcile_spec range range_perm); [|done].
    intros frameID Hpresent.
    assert (frameID ≠ F) as Hne.
    { intros ->. rewrite Hjoin, Hinvite, Hleave in Hpresent.
      by destruct Hpresent as [[? ?]|[[? ?]|[? ?]]]. }
    repeat split.
    - intros h1 frame Hh1. cbn. by rewrite lookup_insert_ne.
    - intros h1 c Hh1. exact Hh1.
    - intros eff ->. exact Hne. }
  destruct (Hspec h eq_refl) as (HI & HT & _). by split.
Qed.

Lemma not_about_not_touches (F : string) (eff : effect) :
  effect_frame eff ≠ F -> touches F eff = false.
Proof. destruct eff; cbn; intros Hne; by rewrite ?bool_decide_eq_false_2. Qed.

(** C2, amended: in a batch processed with a non-empty since position,
    take a frame of the joined bucket whose most recent membership event
    of the syncing user, in its timeline, has the membership "join". The
    frame is out of the joined and the invited bucket when the main pass
    starts; and when the frame is not in the left bucket either, its state
    table is not updated and no listener is called on an event of it. *)
Theorem rejoined_frame_is_suppressed s (res : RespSync) (since : string) h
    (F : string) (frameData : JoinedFrame) :
  since ≠ "" ->
  Join res !! F = Some frameData ->
  latest_own_membership s (JoinTimeline frameData) = Some (JString "join") ->
  Join (DefaultSyncer.shouldProcessResponse range s res since).2 !! F = None
  /\ Invite (DefaultSyncer.shouldProcessResponse range s res since).2 !! F = None
  /\ (Leave res !! F = None -> suppressed debug_Stack range s res since h F).
Proof.
  intros Hsince Hframe Hlatest.
  rewrite (shouldProcessResponse_since _ _ _ Hsince). cbn [snd].
  destruct (scan_frames_removes s (range _ (Join res)) res F frameData)
    as [Hjoin Hinvite].
  { by apply elem_of_range. }
  { by apply latest_own_membership_rejoined. }
  { by rewrite Hframe. }
  split; [exact Hjoin|]. split; [exact Hinvite|]. intros Hleft.
  unfold suppressed, DefaultSyncer.ProcessResponse.
  rewrite (shouldProcessResponse_since _ _ _ Hsince). cbn.
  destruct (scan_frames_shrinks s (range _ (Join res)) res) as (Hleave & _ & _).
  destruct (reconcile_leaves_absent_frame s
              (DefaultSyncer.scan_frames s (range _ (Join res)) res) F h)
    as [Hstate Heffects]; [done|done|by rewrite Hleave|].
  unfold DefaultSyncer.recover.
  destruct (DefaultSyncer.reconcile range s _ h) as [[[[]|r] h1] t]; cbn in *;
    (split; [done|]; split; [done|]; split; [done|]);
    eapply Forall_impl; eauto using not_about_not_touches.
Qed.

End ReconciliationClaims.

(** ** The default client *)

Section DefaultWorld.

Context {L : Type}.
Variable debug_Stack : string.
Variable range : forall A : Type, gmap string A -> list (string * A).
Hypothesis range_perm :
  forall (A : Type) (m : gmap string A), range A m ≡ₚ map_to_list m.

(** The in-memory store loads the position it saved. *)
Lemma Default_loads_saved_position (userID token : string) (w : Default.world (L := L)) :
  LoadNextBatch userID (SaveNextBatch userID token w) = token.
Proof.
  cbn. unfold InMemory.LoadNextBatch, InMemory.SaveNextBatch. cbn.
  by rewrite lookup_insert_eq.
Qed.

(** The default syncer leaves the saved positions alone. *)
Lemma Default_keeps_position (res : RespSync) (since : string)
    (w w' : Default.world (L := L)) (out : result (option error)) (userID : string) :
  ProcessResponse (Syncer := Default.syncer_instance debug_Stack range) res since w
    = (out, w') ->
  LoadNextBatch userID w' = LoadNextBatch userID w.
Proof.
  cbn. unfold DefaultSyncer.ProcessResponse.
  destruct (DefaultSyncer.shouldProcessResponse range (Default.syncer w) res since)
    as [[] res1]; cbn.
  - assert (Hspec :
      run_spec (fun h => NextBatch (DefaultSyncer.store h)
                         = NextBatch (DefaultSyncer.store (Default.memory w)))
               (fun _ => True) (fun _ => True)
               (DefaultSyncer.reconcile range (Default.syncer w) res1)).
    { apply (reconcile_spec range range_perm); [|done].
      intros frameID _. by repeat split. }
    destruct (Hspec (Default.memory w) eq_refl) as (HI & _).
    unfold DefaultSyncer.recover.
    destruct (DefaultSyncer.reconcile range (Default.syncer w) res1 (Default.memory w))
      as [[[[]|r] h1] t]; cbn in *; intros [= _ <-]; cbn;
      unfold InMemory.LoadNextBatch; by rewrite HI.
  - by intros [= _ <-].
Qed.

End DefaultWorld.

(** * The claims on the sample data *)

Lemma in_order_perm (A : Type) (m : gmap string A) :
  Sample.in_order A m ≡ₚ map_to_list m.
Proof. reflexivity. Qed.

(** A request that fails, then one that succeeds after another goroutine
    has called [Sync] or [StopSync]: the loop that captured the token 1
    reads 2 and returns. *)
Lemma Sync_superseded_returns_nil_witness :
  Client.sync_loop
    ([Client.mkRound 0 (Client.FetchErr None "timeout")]
       ++ [Client.mkRound 1 (Client.FetchOk Sample.chat)])
    1 "s1" "f" (Sample.client Sample.counting)
  = (Client.Returned None,
     Client.increments 1 (Sample.client Sample.counting),
     [Client.ActSyncRequest 30000 "s1" "f"; Client.ActOnFailedSync None "timeout";
      Client.ActSleep 10000000000]
       ++ [Client.ActSyncRequest 30000 "s1" "f"]).
Proof.
  apply (Sync_superseded_returns_nil
           [Client.mkRound 0 (Client.FetchErr None "timeout")]
           (Client.mkRound 1 (Client.FetchOk Sample.chat)) []
           1 "s1" "f" (Sample.client Sample.counting) "s1"
           (Sample.client Sample.counting)
           [Client.ActSyncRequest 30000 "s1" "f"; Client.ActOnFailedSync None "timeout";
            Client.ActSleep 10000000000]
           Sample.chat).
  - reflexivity.
  - reflexivity.
  - vm_compute. discriminate.
Defined.

(** A failed request under the default policy, then one under a policy
    that gives up. *)
Lemma Sync_failed_fetch_witness :
  (Client.sync_loop [Client.mkRound 0 (Client.FetchErr None "timeout")] 1 "s1" "f"
     (Sample.client Sample.counting)
   = (Client.Polling "s1", Sample.client Sample.counting,
      [Client.ActSyncRequest 30000 "s1" "f"; Client.ActOnFailedSync None "timeout";
       Client.ActSleep 10000000000]))
  /\ Client.sync_loop [Client.mkRound 0 (Client.FetchErr None "timeout")] 1 "s1" "f"
       (Client.mkClient Sample.me 1 Sample.Nothing)
     = (Client.Returned (Some "giving up"), Client.mkClient Sample.me 1 Sample.Nothing,
        [Client.ActSyncRequest 30000 "s1" "f"; Client.ActOnFailedSync None "timeout"]).
Proof.
  split.
  - apply (Sync_failed_fetch [] (Client.mkRound 0 (Client.FetchErr None "timeout")) []
             1 "s1" "f" (Sample.client Sample.counting) "s1"
             (Sample.client Sample.counting) [] None "timeout" 10000000000 None
             (Client.world (Sample.client Sample.counting))).
    + reflexivity.
    + reflexivity.
    + reflexivity.
  - apply (Sync_failed_fetch [] (Client.mkRound 0 (Client.FetchErr None "timeout")) []
             1 "s1" "f" (Client.mkClient Sample.me 1 Sample.Nothing) "s1"
             (Client.mkClient Sample.me 1 Sample.Nothing) [] None "timeout" 0
             (Some "giving up") Sample.Nothing).
    + reflexivity.
    + reflexivity.
    + reflexivity.
Defined.

(** A batch whose listener panics: [Sync] returns the error of
    [ProcessResponse], and the store holds the position of the batch. *)
Lemma Sync_saves_position_before_processing_witness :
  exists e w2,
    Client.sync_loop [Client.mkRound 0 (Client.FetchOk Sample.chat)] 1 "s1" "f"
      (Sample.client Sample.exploding)
    = (Client.Returned (Some e),
       Client.with_world w2 (Sample.client Sample.exploding),
       [Client.ActSyncRequest 30000 "s1" "f"; Client.ActSaveNextBatch Sample.me "s2";
        Client.ActProcessResponse Sample.chat "s1"])
    /\ LoadNextBatch Sample.me w2 = "s2".
Proof.
  destruct (Sync_saves_position_before_processing
              [] (Client.mkRound 0 (Client.FetchOk Sample.chat)) [] 1 "s1" "f"
              (Sample.client Sample.exploding) "s1" (Sample.client Sample.exploding) []
              Sample.chat
              Default_loads_saved_position
              (Default_keeps_position "goroutine 1 [running]" Sample.in_order in_order_perm)
              eq_refl eq_refl eq_refl) as (_ & _ & Herror).
  eexists _, _. apply Herror. vm_compute. reflexivity.
Defined.

(** A batch whose listener panics with "boom". *)
Lemma ProcessResponse_recovers_witness :
  exists err h1 t,
    DefaultSyncer.ProcessResponse "goroutine 1 [running]" Sample.in_order
      Sample.exploding Sample.chat "s1" Sample.empty_heap = (Ok (Some err), h1, t)
    /\ err = DefaultSyncer.panicked "goroutine 1 [running]" Sample.exploding "s1" "boom"
    /\ contains Sample.me err
    /\ contains "s1" err.
Proof.
  destruct (ProcessResponse_recovers "goroutine 1 [running]" Sample.in_order
              Sample.exploding Sample.chat Sample.chat "s1" Sample.empty_heap eq_refl)
    as [_ Hrecovered].
  destruct (DefaultSyncer.reconcile Sample.in_order Sample.exploding Sample.chat
              Sample.empty_heap) as [[[[]|r] h1] t] eqn:Hrun.
  - vm_compute in Hrun. discriminate.
  - destruct Hrecovered as (err & Hreturned & Herr & Huser & Hsince).
    assert (r = "boom") as -> by (vm_compute in Hrun; congruence).
    by exists err, h1, t.
Defined.

(** A left frame the store holds: the message does nothing, the leave of
    the bot is written to the state table and notified. *)
Lemma left_timeline_needs_StateKey_witness :
  DefaultSyncer.process_left_event Sample.counting "!a" Sample.message Sample.holding_a
  = (Ok tt, Sample.holding_a, [])
  /\ (DefaultSyncer.process_left_event Sample.counting "!a"
        (Sample.member Sample.me "leave") Sample.holding_a).2
     = [EffUpdateState "!a" (set_FrameID "!a" (Sample.member Sample.me "leave"));
        EffNotify 0 (set_FrameID "!a" (Sample.member Sample.me "leave"))]
  /\ GetStateEvent
       (UpdateState (NewFrame "!a") (set_FrameID "!a" (Sample.member Sample.me "leave"))).2
       "m.frame.member" Sample.me
     = Some (set_FrameID "!a" (Sample.member Sample.me "leave")).
Proof.
  destruct (left_timeline_needs_StateKey Sample.counting "!a") as (Hnone & Hsome & _).
  destruct (Hsome (Sample.member Sample.me "leave") Sample.me (NewFrame "!a")
              Sample.holding_a eq_refl eq_refl) as [Hget Hrun].
  split; [apply Hnone; reflexivity|]. split; [|exact Hget].
  rewrite Hrun. vm_compute. reflexivity.
Defined.

(** A joined frame with a state event that has no state key. *)
Lemma keyless_state_event_reaches_nil_dereference_witness :
  exists h1 t,
    DefaultSyncer.ProcessResponse "goroutine 1 [running]" Sample.in_order
      Sample.counting Sample.keyless_state "s1" Sample.empty_heap
    = (Ok (Some (DefaultSyncer.panicked "goroutine 1 [running]" Sample.counting "s1"
                   nil_dereference)), h1, t).
Proof.
  destruct (keyless_state_event_reaches_nil_dereference
              "goroutine 1 [running]" Sample.in_order in_order_perm
              Sample.counting Sample.keyless_state Sample.keyless_state "s1"
              Sample.empty_heap "!b" eq_refl) as (_ & _ & r & h1 & t & Hrun & Hreturned & _).
  - left. exists (mkJoined [Sample.event "m.frame.name" None None] [] []),
                 (Sample.event "m.frame.name" None None).
    split; [reflexivity|]. split; [by left|reflexivity].
  - exists h1, t. rewrite Hreturned.
    assert (r = nil_dereference) as ->
      by (vm_compute in Hrun; injection Hrun as <- _ _; reflexivity).
    reflexivity.
Defined.

(** The bot has rejoined "!a": nothing of the batch is processed. *)
Lemma rejoined_frame_is_suppressed_witness :
  suppressed "goroutine 1 [running]" Sample.in_order Sample.counting Sample.rejoin "s1"
    Sample.empty_heap "!a"
  /\ (DefaultSyncer.ProcessResponse "goroutine 1 [running]" Sample.in_order Sample.counting
        Sample.rejoin "s1" Sample.empty_heap).2 = [].
Proof.
  split; [|vm_compute; reflexivity].
  apply (rejoined_frame_is_suppressed "goroutine 1 [running]" Sample.in_order in_order_perm
           Sample.counting Sample.rejoin "s1" Sample.empty_heap "!a"
           (mkJoined [Sample.member "@alice:hs" "join"]
                     [Sample.message; Sample.member Sample.me "join"] [Sample.message])).
  - discriminate.
  - reflexivity.
  - reflexivity.
  - reflexivity.
Defined.

(** C2, as stated, fails. Read to the letter, with the membership value
    "joined", the frame of [Sample.rejoin_joined] stays in the joined
    bucket: the code looks for "join". Read with the value "join", the
    frame of [Sample.rejoin_and_left] leaves the joined bucket, but it is in
    the left bucket too, which is processed: its state table is updated and
    a listener is called on its event. *)
Lemma suppression_as_stated_fails :
  Join (DefaultSyncer.shouldProcessResponse Sample.in_order Sample.counting
          Sample.rejoin_joined "s1").2 !! "!a"
  = Some (mkJoined [] [Sample.message; Sample.member Sample.me "joined"] [])
  /\ (DefaultSyncer.ProcessResponse "goroutine 1 [running]" Sample.in_order Sample.counting
        Sample.rejoin_and_left "s1" Sample.empty_heap).2
     = [EffLoadFrame "!a"; EffSaveFrame (NewFrame "!a");
        EffUpdateState "!a" (set_FrameID "!a" (Sample.member Sample.me "leave"));
        EffNotify 0 (set_FrameID "!a" (Sample.member Sample.me "leave"))]
  /\ ~ suppression_as_stated "joined"
  /\ ~ suppression_as_stated "join".
Proof.
  split; [vm_compute; reflexivity|]. split; [vm_compute; reflexivity|].
  split; intros Hclaim.
  - specialize (Hclaim nat "goroutine 1 [running]" Sample.in_order in_order_perm
                  Sample.counting Sample.rejoin_joined "s1" Sample.empty_heap "!a"
                  (mkJoined [] [Sample.message; Sample.member Sample.me "joined"] [])).
    assert (Hrun : suppressed "goroutine 1 [running]" Sample.in_order Sample.counting
                     Sample.rejoin_joined "s1" Sample.empty_heap "!a")
      by (apply Hclaim; [discriminate|reflexivity|reflexivity]).
    vm_compute in Hrun. destruct Hrun as [Hjoin _]. discriminate.
  - specialize (Hclaim nat "goroutine 1 [running]" Sample.in_order in_order_perm
                  Sample.counting Sample.rejoin_and_left "s1" Sample.empty_heap "!a"
                  (mkJoined [] [Sample.message; Sample.member Sample.me "join"] [])).
    assert (Hrun : suppressed "goroutine 1 [running]" Sample.in_order Sample.counting
                     Sample.rejoin_and_left "s1" Sample.empty_heap "!a")
      by (apply Hclaim; [discriminate|reflexivity|reflexivity]).
    vm_compute in Hrun. destruct Hrun as (_ & _ & _ & Htouched).
    apply Forall_cons in Htouched as [_ Htouched].
    apply Forall_cons in Htouched as [_ Htouched].
    apply Forall_cons in Htouched as [Hupdate _]. discriminate.
Qed.

(** * Further properties *)

(** ** The in-memory store *)

(** X1: the in-memory store gives back the position and the filter
    identifier it saved for a user, leaves those of the other users as they
    were, and keeps the two tables and the frames apart; a new store
    answers the empty string. *)
Theorem InMemoryStore_tokens_round_trip (s : InMemoryStore) (userID other value : string)
    (frameID : string) :
  InMemory.LoadNextBatch other (InMemory.SaveNextBatch userID value s)
    = (if decide (other = userID) then value else InMemory.LoadNextBatch other s)
  /\ InMemory.LoadFilterID other (InMemory.SaveFilterID userID value s)
     = (if decide (other = userID) then value else InMemory.LoadFilterID other s)
  /\ InMemory.LoadFilterID other (InMemory.SaveNextBatch userID value s)
     = InMemory.LoadFilterID other s
  /\ InMemory.LoadNextBatch other (InMemory.SaveFilterID userID value s)
     = InMemory.LoadNextBatch other s
  /\ InMemory.LoadFrame frameID (InMemory.SaveNextBatch userID value s)
     = InMemory.LoadFrame frameID s
  /\ InMemory.LoadFrame frameID (InMemory.SaveFilterID userID value s)
     = InMemory.LoadFrame frameID s
  /\ InMemory.LoadNextBatch other NewInMemoryStore = ""
  /\ InMemory.LoadFilterID other NewInMemoryStore = "".
Proof.
  unfold InMemory.LoadNextBatch, InMemory.LoadFilterID, InMemory.LoadFrame,
    InMemory.SaveNextBatch, InMemory.SaveFilterID. cbn.
  repeat split; try reflexivity.
  - rewrite lookup_insert. destruct (decide (userID = other)); subst; by case_decide.
  - rewrite lookup_insert. destruct (decide (userID = other)); subst; by case_decide.
Qed.

(** X2: the in-memory store holds a frame under the identifier the frame
    carries: loading that identifier gives the frame last saved, the other
    frames, the positions and the filter identifiers are as they were, and
    a new store holds no frame. *)
Theorem InMemoryStore_frames_round_trip (s : InMemoryStore) (frame : Frame)
    (frameID userID : string) :
  InMemory.LoadFrame frameID (InMemory.SaveFrame frame s)
    = (if decide (frameID = Frame_ID frame) then Some frame
       else InMemory.LoadFrame frameID s)
  /\ InMemory.LoadNextBatch userID (InMemory.SaveFrame frame s)
     = InMemory.LoadNextBatch userID s
  /\ InMemory.LoadFilterID userID (InMemory.SaveFrame frame s)
     = InMemory.LoadFilterID userID s
  /\ InMemory.LoadFrame frameID NewInMemoryStore = None.
Proof.
  unfold InMemory.LoadNextBatch, InMemory.LoadFilterID, InMemory.LoadFrame,
    InMemory.SaveFrame. cbn.
  repeat split; try reflexivity.
  rewrite lookup_insert. destruct (decide (Frame_ID frame = frameID)); subst; by case_decide.
Qed.

(** ** The state table, continued *)

(** What a lookup gives after an update with an event that has a state
    key. *)
Lemma GetStateEvent_UpdateState (frame : Frame) (event : Event) (key : string)
    (eventType stateKey : string) :
  StateKey event = Some key ->
  GetStateEvent (UpdateState frame event).2 eventType stateKey
  = if decide ((eventType, stateKey) = (Type_ event, key)) then Some event
    else GetStateEvent frame eventType stateKey.
Proof.
  intros Hkey. destruct (UpdateState_clobbers frame event key Hkey) as (_ & Hget & Hother).
  case_decide as Heq.
  - by injection Heq as -> ->.
  - by apply Hother.
Qed.

(** An update with an event without a state key leaves every lookup as it
    was: at most it creates the empty table of the type. *)
Lemma GetStateEvent_UpdateState_keyless (frame : Frame) (event : Event)
    (eventType stateKey : string) :
  StateKey event = None ->
  GetStateEvent (UpdateState frame event).2 eventType stateKey
  = GetStateEvent frame eventType stateKey.
Proof.
  intros Hkey. unfold UpdateState, GetStateEvent. rewrite Hkey. cbn.
  destruct (State frame !! Type_ event) as [inner|] eqn:Hinner; [reflexivity|].
  destruct (decide (eventType = Type_ event)) as [->|Hne].
  - by rewrite lookup_insert_eq, Hinner.
  - by rewrite lookup_insert_ne.
Qed.

(** The membership lookup reads the state table through [GetStateEvent]
    only. *)
Lemma GetMembershipState_ext (frame frame1 : Frame) (userID : string) :
  GetStateEvent frame1 "m.frame.member" userID = GetStateEvent frame "m.frame.member" userID ->
  GetMembershipState frame1 userID = GetMembershipState frame userID.
Proof. intros Hget. unfold GetMembershipState. by rewrite Hget. Qed.

(** X3: updates clobber. After two updates with events of the same type
    and state key, the table answers the second event for that type and
    key, and every lookup is what it would be had the first update not
    taken place. *)
Theorem UpdateState_last_write_wins (frame : Frame) (first second : Event) (key : string) :
  StateKey first = Some key ->
  StateKey second = Some key ->
  Type_ first = Type_ second ->
  GetStateEvent (UpdateState (UpdateState frame first).2 second).2 (Type_ second) key
    = Some second
  /\ forall eventType stateKey,
       GetStateEvent (UpdateState (UpdateState frame first).2 second).2 eventType stateKey
       = GetStateEvent (UpdateState frame second).2 eventType stateKey.
Proof.
  intros Hfirst Hsecond Htype. split.
  - rewrite (GetStateEvent_UpdateState _ _ key) by done. by rewrite decide_True.
  - intros eventType stateKey.
    rewrite !(GetStateEvent_UpdateState _ second key) by done.
    case_decide as Heq; [reflexivity|].
    rewrite (GetStateEvent_UpdateState _ first key) by done.
    rewrite decide_False; [reflexivity|]. by rewrite Htype.
Qed.

Lemma UpdateState_last_write_wins_witness :
  GetStateEvent
    (UpdateState (UpdateState (NewFrame "!a") (Sample.member Sample.me "invite")).2
       (Sample.member Sample.me "join")).2 "m.frame.member" Sample.me
  = Some (Sample.member Sample.me "join").
Proof.
  apply (UpdateState_last_write_wins (NewFrame "!a") (Sample.member Sample.me "invite")
           (Sample.member Sample.me "join") Sample.me); reflexivity.
Defined.

(** X4: an update with an event that has no state key panics, and the
    frame it leaves answers every state lookup and every membership lookup
    as before, under the same identifier. *)
Theorem UpdateState_keyless_changes_nothing (frame : Frame) (event : Event) :
  StateKey event = None ->
  (UpdateState frame event).1 = Panic nil_dereference
  /\ Frame_ID (UpdateState frame event).2 = Frame_ID frame
  /\ (forall eventType stateKey,
        GetStateEvent (UpdateState frame event).2 eventType stateKey
        = GetStateEvent frame eventType stateKey)
  /\ forall userID,
       GetMembershipState (UpdateState frame event).2 userID
       = GetMembershipState frame userID.
Proof.
  intros Hkey. split; [by apply UpdateState_nil_StateKey|].
  split; [unfold UpdateState; by rewrite Hkey|].
  split.
  - intros eventType stateKey. by apply GetStateEvent_UpdateState_keyless.
  - intros userID. by apply GetMembershipState_ext, GetStateEvent_UpdateState_keyless.
Qed.

Lemma UpdateState_keyless_changes_nothing_witness :
  (UpdateState Fixture.two_members Sample.message).1 = Panic nil_dereference
  /\ GetMembershipState (UpdateState Fixture.two_members Sample.message).2 Sample.me
     = "invite".
Proof.
  destruct (UpdateState_keyless_changes_nothing Fixture.two_members Sample.message eq_refl)
    as (Hpanic & _ & _ & Hmember).
  split; [exact Hpanic|]. rewrite Hmember. reflexivity.
Defined.

(** X5: after an update with a membership event of a user whose content
    has a string under "membership", the membership of that user is that
    string, and the membership of every other user is as it was. *)
Theorem GetMembershipState_after_UpdateState (frame : Frame) (event : Event)
    (userID membership : string) :
  Type_ event = "m.frame.member" ->
  StateKey event = Some userID ->
  Content event !! "membership" = Some (JString membership) ->
  GetMembershipState (UpdateState frame event).2 userID = membership
  /\ forall other, other ≠ userID ->
       GetMembershipState (UpdateState frame event).2 other
       = GetMembershipState frame other.
Proof.
  intros Htype Hkey Hcontent. split.
  - unfold GetMembershipState.
    rewrite (GetStateEvent_UpdateState _ _ userID) by done.
    rewrite decide_True by (by rewrite Htype). by rewrite Hcontent.
  - intros other Hother. apply GetMembershipState_ext.
    rewrite (GetStateEvent_UpdateState _ _ userID) by done.
    rewrite decide_False; [reflexivity|]. congruence.
Qed.

Lemma GetMembershipState_after_UpdateState_witness :
  GetMembershipState
    (UpdateState Fixture.two_members (Sample.member Sample.me "join")).2 Sample.me = "join"
  /\ GetMembershipState
       (UpdateState Fixture.two_members (Sample.member Sample.me "join")).2 "@alice:hs"
     = "join"
  /\ GetMembershipState
       (UpdateState Fixture.two_members (Sample.member Sample.me "join")).2 "@carol:hs"
     = "leave".
Proof.
  destruct (GetMembershipState_after_UpdateState Fixture.two_members
              (Sample.member Sample.me "join") Sample.me "join" eq_refl eq_refl eq_refl)
    as [Hme Hothers].
  split; [exact Hme|]. split.
  - rewrite (Hothers "@alice:hs") by discriminate. reflexivity.
  - rewrite (Hothers "@carol:hs") by discriminate. reflexivity.
Defined.

(** X6: an update with an event of another type than "m.frame.member",
    with or without a state key, changes the membership of no user. *)
Theorem GetMembershipState_ignores_other_types (frame : Frame) (event : Event)
    (userID : string) :
  Type_ event ≠ "m.frame.member" ->
  GetMembershipState (UpdateState frame event).2 userID = GetMembershipState frame userID.
Proof.
  intros Htype. apply GetMembershipState_ext.
  destruct (StateKey event) as [key|] eqn:Hkey.
  - rewrite (GetStateEvent_UpdateState _ _ key) by done.
    rewrite decide_False; [reflexivity|]. congruence.
  - by apply GetStateEvent_UpdateState_keyless.
Qed.

Lemma GetMembershipState_ignores_other_types_witness :
  GetMembershipState
    (UpdateState Fixture.two_members (Sample.event "m.frame.topic" (Some "") None)).2
    Sample.me = "invite".
Proof.
  rewrite (GetMembershipState_ignores_other_types Fixture.two_members
             (Sample.event "m.frame.topic" (Some "") None) Sample.me).
  - reflexivity.
  - discriminate.
Defined.

(** Updates keep the state table well formed. *)
Lemma UpdateState_well_formed (frame : Frame) (event : Event) :
  state_well_formed frame -> state_well_formed (UpdateState frame event).2.
Proof.
  intros Hframe eventType stateKey stored.
  destruct (StateKey event) as [key|] eqn:Hkey.
  - rewrite (GetStateEvent_UpdateState _ _ key) by done.
    case_decide as Heq; [|apply Hframe].
    injection Heq as -> ->. by intros [= <-].
  - rewrite GetStateEvent_UpdateState_keyless by done. apply Hframe.
Qed.

Lemma NewFrame_well_formed (frameID : string) : state_well_formed (NewFrame frameID).
Proof.
  intros eventType stateKey stored. unfold GetStateEvent, NewFrame. cbn.
  by rewrite !lookup_empty.
Qed.

(** X7: the state table of a frame made by [NewFrame] and changed by
    [UpdateState] only holds state events filed under their own type and
    state key: every event a lookup finds has the type and the state key
    it was looked up with, whatever the events of the updates were. *)
Theorem state_table_well_formed (frameID : string) (events : list Event) :
  state_well_formed
    (foldl (fun frame event => (UpdateState frame event).2) (NewFrame frameID) events).
Proof.
  assert (Hany : forall frame, state_well_formed frame ->
            state_well_formed (foldl (fun frame event => (UpdateState frame event).2)
                                 frame events)).
  { induction events as [|event events IH]; intros frame Hframe; [exact Hframe|].
    cbn. apply IH. by apply UpdateState_well_formed. }
  apply Hany, NewFrame_well_formed.
Qed.

(** ** Interactive registration flows and filters *)

Lemma single_stage_flow_spec (flows : list Flow) (stageName : string) :
  single_stage_flow flows stageName = true
  <-> exists f, f ∈ flows /\ Stages f = [stageName].
Proof.
  induction flows as [|f flows IH]; cbn.
  - split; [discriminate|]. intros (f & Hin & _). by apply elem_of_nil in Hin.
  - destruct (Nat.eqb (length (Stages f)) 1
              && bool_decide (Stages f !! 0%nat = Some stageName)) eqn:Htest.
    + split; [intros _|done]. exists f. split; [by left|].
      apply andb_true_iff in Htest as [Hlen Hfirst].
      apply Nat.eqb_eq in Hlen. apply bool_decide_eq_true in Hfirst.
      destruct (Stages f) as [|stage [|? ?]]; cbn in *; try discriminate.
      by injection Hfirst as ->.
    + rewrite IH. split.
      * intros (g & Hin & Hg). exists g. split; [by right|done].
      * intros (g & Hin & Hg). apply elem_of_cons in Hin as [->|Hin]; [|by exists g].
        rewrite Hg in Htest. cbn in Htest.
        by rewrite bool_decide_eq_true_2 in Htest.
Qed.

(** X8: [HasSingleStageFlow] answers true exactly when one of the flows
    consists of the one stage asked for; flows with more stages, or with
    none, do not count, wherever the stage occurs in them. *)
Theorem HasSingleStageFlow_iff (r : RespUserInteractive) (stageName : string) :
  HasSingleStageFlow r stageName = true
  <-> exists f, f ∈ Flows r /\ Stages f = [stageName].
Proof. apply single_stage_flow_spec. Qed.

(** X9: [Validate] accepts a filter exactly when its event format is
    "client" or "federation", and otherwise returns the one error of the
    function; the filter of [DefaultFilter] is accepted. *)
Theorem Filter_Validate_accepts (filter : Filter.t) :
  (Filter.Validate filter = None
   <-> Filter.EventFormat filter = "client" \/ Filter.EventFormat filter = "federation")
  /\ (Filter.Validate filter = None \/ Filter.Validate filter = Some Filter.bad_event_format)
  /\ Filter.Validate Filter.DefaultFilter = None.
Proof.
  unfold Filter.Validate. split; [|split; [|reflexivity]].
  - destruct (decide (Filter.EventFormat filter = "client")) as [Hc|Hc];
    destruct (decide (Filter.EventFormat filter = "federation")) as [Hf|Hf];
      rewrite ?(bool_decide_eq_true_2 _ Hc), ?(bool_decide_eq_false_2 _ Hc),
        ?(bool_decide_eq_true_2 _ Hf), ?(bool_decide_eq_false_2 _ Hf); cbn;
      intuition congruence.
  - destruct (negb _ && negb _); [by right|by left].
Qed.

(** ** Registration of listeners and dispatch *)

Section Dispatch.

Context {L : Type}.
Implicit Types (s : DefaultSyncer.t (L := L)) (h : DefaultSyncer.heap (L := L)).
Implicit Types (fns : list (DefaultSyncer.OnEventListener (L := L))).

Lemma listeners_OnEventType s (eventType other : string)
    (callback : DefaultSyncer.OnEventListener (L := L)) :
  DefaultSyncer.listeners (DefaultSyncer.OnEventType s eventType callback) !! other
  = if decide (other = eventType)
    then Some (default [] (DefaultSyncer.listeners s !! eventType) ++ [callback])
    else DefaultSyncer.listeners s !! other.
Proof.
  unfold DefaultSyncer.OnEventType. cbn. case_decide as Heq.
  - subst other. rewrite lookup_insert_eq. f_equal. f_equal.
    destruct (DefaultSyncer.listeners s !! eventType) as [fns|] eqn:Hfns.
    + by rewrite Hfns.
    + by rewrite lookup_insert_eq.
  - rewrite lookup_insert_ne by done.
    destruct (DefaultSyncer.listeners s !! eventType) as [fns|]; [done|].
    by rewrite lookup_insert_ne.
Qed.

(** The calls of [call_from] when the callbacks return. *)
Lemma call_from_returns fns (index : nat) (event : Event) h :
  (forall fn, fn ∈ fns -> forall c, (fn event c).1 = Ok tt) ->
  DefaultSyncer.call_from index fns event h
  = (Ok tt,
     {| DefaultSyncer.store := DefaultSyncer.store h;
        DefaultSyncer.closures := run_listeners fns event (DefaultSyncer.closures h) |},
     imap (fun j _ => EffNotify (index + j) event) fns).
Proof.
  revert index h. induction fns as [|fn fns IH]; intros index h Hreturn.
  - by destruct h.
  - cbn [DefaultSyncer.call_from]. rewrite bind_run. unfold DefaultSyncer.call at 1.
    pose proof (Hreturn fn ltac:(by left) (DefaultSyncer.closures h)) as Hfn.
    destruct (fn event (DefaultSyncer.closures h)) as [r c] eqn:Hrun.
    cbn in Hfn. subst r. rewrite IH by (intros g Hg; apply Hreturn; by right).
    cbn. unfold run_listeners. cbn. rewrite Hrun. cbn.
    f_equal. rewrite Nat.add_0_r. f_equal.
    apply imap_ext. intros j g _. cbn. f_equal. lia.
Qed.

(** The calls of [call_from] when a callback panics after others have
    returned. *)
Lemma call_from_panics (before : list (DefaultSyncer.OnEventListener (L := L)))
    (fn : DefaultSyncer.OnEventListener (L := L)) after (index : nat) (event : Event) h
    (r : string) :
  (forall g, g ∈ before -> forall c, (g event c).1 = Ok tt) ->
  (fn event (run_listeners before event (DefaultSyncer.closures h))).1 = Panic r ->
  DefaultSyncer.call_from index (before ++ fn :: after) event h
  = (Panic r,
     {| DefaultSyncer.store := DefaultSyncer.store h;
        DefaultSyncer.closures :=
          (fn event (run_listeners before event (DefaultSyncer.closures h))).2 |},
     imap (fun j _ => EffNotify (index + j) event) (before ++ [fn])).
Proof.
  revert index h. induction before as [|g before IH]; intros index h Hreturn Hpanic.
  - cbn [app DefaultSyncer.call_from]. rewrite bind_run. unfold DefaultSyncer.call at 1.
    cbn in Hpanic |- *.
    destruct (fn event (DefaultSyncer.closures h)) as [r1 c]. cbn in Hpanic. subst r1.
    cbn. by rewrite Nat.add_0_r.
  - cbn [app DefaultSyncer.call_from]. rewrite bind_run. unfold DefaultSyncer.call at 1.
    pose proof (Hreturn g ltac:(by left) (DefaultSyncer.closures h)) as Hg.
    unfold run_listeners in Hpanic |- *. cbn in Hpanic |- *.
    destruct (g event (DefaultSyncer.closures h)) as [r1 c]. cbn in Hg, Hpanic |- *.
    subst r1.
    rewrite (IH (S index) {| DefaultSyncer.store := DefaultSyncer.store h;
                             DefaultSyncer.closures := c |})
      by (first [intros g1 Hg1; apply Hreturn; by right | exact Hpanic]).
    cbn. f_equal. rewrite Nat.add_0_r. f_equal.
    apply imap_ext. intros j g1 _. cbn. f_equal. lia.
Qed.

(** X10: [OnEventType] puts the callback at the end of the listeners of
    the event type and leaves the listeners of the other types and the
    user as they were; there is no test for duplicates, so the same
    callback registered again is a further listener. An event of that type
    is then notified to the listeners registered before, and to the new
    one last. *)
Theorem OnEventType_appends s (eventType : string)
    (callback : DefaultSyncer.OnEventListener (L := L)) :
  DefaultSyncer.UserID (DefaultSyncer.OnEventType s eventType callback)
    = DefaultSyncer.UserID s
  /\ (forall other,
        DefaultSyncer.listeners (DefaultSyncer.OnEventType s eventType callback) !! other
        = if decide (other = eventType)
          then Some (default [] (DefaultSyncer.listeners s !! eventType) ++ [callback])
          else DefaultSyncer.listeners s !! other)
  /\ forall event,
       notify_effects (DefaultSyncer.OnEventType s eventType callback) event
       = if decide (Type_ event = eventType)
         then notify_effects s event
                ++ [EffNotify (length (default [] (DefaultSyncer.listeners s !! eventType)))
                      event]
         else notify_effects s event.
Proof.
  split; [reflexivity|]. split; [intros other; apply listeners_OnEventType|].
  intros event. unfold notify_effects. rewrite listeners_OnEventType.
  case_decide as Heq; [|reflexivity].
  rewrite Heq. cbn. rewrite imap_app. cbn. by rewrite Nat.add_0_r.
Qed.

(** X11: when the listeners registered for the type of an event all
    return, [notifyListeners] returns after it has called each of them
    once, in the order of registration; the store is as it was and the
    memory of the callbacks is what they made of it in turn. For a type
    without listeners nothing is called. *)
Theorem notifyListeners_calls_in_order s (event : Event) h :
  (forall fn, fn ∈ default [] (DefaultSyncer.listeners s !! Type_ event) ->
              forall c, (fn event c).1 = Ok tt) ->
  (DefaultSyncer.notifyListeners s event h).1.1 = Ok tt
  /\ DefaultSyncer.store (DefaultSyncer.notifyListeners s event h).1.2 = DefaultSyncer.store h
  /\ DefaultSyncer.closures (DefaultSyncer.notifyListeners s event h).1.2
     = run_listeners (default [] (DefaultSyncer.listeners s !! Type_ event)) event
         (DefaultSyncer.closures h)
  /\ (DefaultSyncer.notifyListeners s event h).2 = notify_effects s event.
Proof.
  intros Hreturn. unfold DefaultSyncer.notifyListeners, notify_effects.
  destruct (DefaultSyncer.listeners s !! Type_ event) as [fns|]; cbn in *.
  - by rewrite call_from_returns.
  - done.
Qed.

(** X12: when a listener panics after the listeners registered before it
    have returned, [notifyListeners] panics with its value: the listeners
    up to that one have been called, in order, and those registered after
    it are not called. The store is as it was. *)
Theorem notifyListeners_stops_at_panic s (event : Event) h
    (before : list (DefaultSyncer.OnEventListener (L := L)))
    (fn : DefaultSyncer.OnEventListener (L := L)) after (r : string) :
  DefaultSyncer.listeners s !! Type_ event = Some (before ++ fn :: after) ->
  (forall g, g ∈ before -> forall c, (g event c).1 = Ok tt) ->
  (fn event (run_listeners before event (DefaultSyncer.closures h))).1 = Panic r ->
  (DefaultSyncer.notifyListeners s event h).1.1 = Panic r
  /\ DefaultSyncer.store (DefaultSyncer.notifyListeners s event h).1.2 = DefaultSyncer.store h
  /\ (DefaultSyncer.notifyListeners s event h).2
     = imap (fun index _ => EffNotify index event) (before ++ [fn]).
Proof.
  intros Hlisteners Hreturn Hpanic. unfold DefaultSyncer.notifyListeners.
  rewrite Hlisteners. by rewrite (call_from_panics before fn after 0 event h r).
Qed.

(** X13: [getOrCreateFrame] never panics and returns the frame the store
    holds under the identifier, a new one if it held none; the store holds
    the frame returned afterwards, under that identifier, and its other
    frames, its positions and its filter identifiers are as they were. A
    frame that was there is not saved again, and calling the function a
    second time finds the same frame and changes nothing. *)
Theorem getOrCreateFrame_finds_or_creates (frameID : string) h :
  let frame := default (NewFrame frameID) (InMemory.LoadFrame frameID (DefaultSyncer.store h)) in
  let out := DefaultSyncer.getOrCreateFrame frameID h in
  out.1.1 = Ok frame
  /\ InMemory.LoadFrame frameID (DefaultSyncer.store out.1.2) = Some frame
  /\ (forall other, other ≠ frameID ->
        InMemory.LoadFrame other (DefaultSyncer.store out.1.2)
        = InMemory.LoadFrame other (DefaultSyncer.store h))
  /\ NextBatch (DefaultSyncer.store out.1.2) = NextBatch (DefaultSyncer.store h)
  /\ Filters (DefaultSyncer.store out.1.2) = Filters (DefaultSyncer.store h)
  /\ DefaultSyncer.closures out.1.2 = DefaultSyncer.closures h
  /\ (is_Some (InMemory.LoadFrame frameID (DefaultSyncer.store h)) ->
        out = (Ok frame, h, [EffLoadFrame frameID]))
  /\ DefaultSyncer.getOrCreateFrame frameID out.1.2
     = (Ok frame, out.1.2, [EffLoadFrame frameID]).
Proof.
  unfold DefaultSyncer.getOrCreateFrame, InMemory.LoadFrame.
  destruct (Frames (DefaultSyncer.store h) !! frameID) as [frame|] eqn:Hframe; cbn.
  - rewrite Hframe. by repeat split.
  - rewrite lookup_insert_eq. repeat split; try done.
    intros other Hother. by rewrite lookup_insert_ne.
Qed.

End Dispatch.

Lemma notifyListeners_calls_in_order_witness :
  (DefaultSyncer.notifyListeners Fixture.count_twice (set_FrameID "!b" Sample.message)
     Sample.empty_heap).2
  = [EffNotify 0 (set_FrameID "!b" Sample.message);
     EffNotify 1 (set_FrameID "!b" Sample.message)]
  /\ DefaultSyncer.closures
       (DefaultSyncer.notifyListeners Fixture.count_twice (set_FrameID "!b" Sample.message)
          Sample.empty_heap).1.2 = 2%nat.
Proof.
  destruct (notifyListeners_calls_in_order Fixture.count_twice
              (set_FrameID "!b" Sample.message) Sample.empty_heap)
    as (_ & _ & Hclosures & Heffects).
  - intros fn Hin c. vm_compute in Hin.
    apply elem_of_cons in Hin as [->|Hin]; [reflexivity|].
    apply list_elem_of_singleton in Hin as ->. reflexivity.
  - split; [rewrite Heffects|rewrite Hclosures]; reflexivity.
Defined.

Lemma notifyListeners_stops_at_panic_witness :
  (DefaultSyncer.notifyListeners Fixture.count_boom_count (set_FrameID "!b" Sample.message)
     Sample.empty_heap).1.1 = Panic "boom"
  /\ (DefaultSyncer.notifyListeners Fixture.count_boom_count
        (set_FrameID "!b" Sample.message) Sample.empty_heap).2
     = [EffNotify 0 (set_FrameID "!b" Sample.message);
        EffNotify 1 (set_FrameID "!b" Sample.message)].
Proof.
  destruct (notifyListeners_stops_at_panic Fixture.count_boom_count
              (set_FrameID "!b" Sample.message) Sample.empty_heap
              [Sample.count] Sample.boom [Sample.count] "boom")
    as (Hpanic & _ & Heffects).
  - reflexivity.
  - intros g Hg c. apply list_elem_of_singleton in Hg as ->. reflexivity.
  - reflexivity.
  - split; [exact Hpanic|]. rewrite Heffects. reflexivity.
Defined.

(** ** The join-race filter, in full *)

Section Filtering.

Context {L : Type}.
Implicit Types (s : DefaultSyncer.t (L := L)).

Lemma scan_timeline_not_rejoined s (frameID : string) (latest_first : list Event)
    (resp : RespSync) :
  rejoined s latest_first = false ->
  DefaultSyncer.scan_timeline s frameID latest_first resp = resp.
Proof.
  induction latest_first as [|e earlier IH]; [reflexivity|].
  cbn. intros Hnot. apply orb_false_iff in Hnot as [He Hearlier].
  destruct (DefaultSyncer.is_own_member_event s e); cbn in He; [|by apply IH].
  destruct (assert_string (Content e !! "membership")) as [mship|]; [|by apply IH].
  apply bool_decide_eq_false in He.
  rewrite bool_decide_eq_false_2 by congruence. by apply IH.
Qed.

Lemma scan_frames_cons s (frameID : string) (frameData : JoinedFrame) entries
    (resp : RespSync) :
  DefaultSyncer.scan_frames s ((frameID, frameData) :: entries) resp
  = DefaultSyncer.scan_frames s entries
      (DefaultSyncer.scan_timeline s frameID (rev (JoinTimeline frameData)) resp).
Proof. reflexivity. Qed.

Lemma scan_frames_fields s entries (resp : RespSync) :
  Resp_NextBatch (DefaultSyncer.scan_frames s entries resp) = Resp_NextBatch resp
  /\ AccountData (DefaultSyncer.scan_frames s entries resp) = AccountData resp
  /\ Presence (DefaultSyncer.scan_frames s entries resp) = Presence resp
  /\ Leave (DefaultSyncer.scan_frames s entries resp) = Leave resp.
Proof.
  revert resp. induction entries as [|[frameID frameData] entries IH]; intros resp; [done|].
  rewrite !scan_frames_cons.
  destruct (IH (DefaultSyncer.scan_timeline s frameID (rev (JoinTimeline frameData)) resp))
    as (H1 & H2 & H3 & H4).
  by destruct (scan_timeline_cases s frameID (rev (JoinTimeline frameData)) resp)
    as [Hscan|Hscan]; rewrite Hscan in *.
Qed.

(** A frame that no visited entry marks as rejoined keeps its entries. *)
Lemma scan_frames_keeps s entries (resp : RespSync) (k : string) :
  (forall frameData, (k, frameData) ∈ entries ->
                     rejoined s (JoinTimeline frameData) = false) ->
  Join (DefaultSyncer.scan_frames s entries resp) !! k = Join resp !! k
  /\ Invite (DefaultSyncer.scan_frames s entries resp) !! k = Invite resp !! k.
Proof.
  revert resp. induction entries as [|[frameID frameData] entries IH]; intros resp Hnot;
    [done|].
  rewrite !scan_frames_cons.
  destruct (IH (DefaultSyncer.scan_timeline s frameID (rev (JoinTimeline frameData)) resp))
    as [Hjoin Hinvite].
  { intros d Hd. apply Hnot. by right. }
  rewrite Hjoin, Hinvite.
  destruct (decide (frameID = k)) as [->|Hne].
  - rewrite scan_timeline_not_rejoined; [done|].
    rewrite rejoined_rev. apply Hnot. by left.
  - destruct (scan_timeline_cases s frameID (rev (JoinTimeline frameData)) resp)
      as [Hscan|Hscan]; rewrite Hscan; [done|].
    cbn. by rewrite !lookup_delete_ne.
Qed.

(** The response [shouldProcessResponse] leaves, entry by entry, when the
    entries visited are those of the joined bucket. *)
Lemma scan_frames_result s entries (res : RespSync) (k : string) :
  (forall frameID frameData, (frameID, frameData) ∈ entries <-> Join res !! frameID = Some frameData) ->
  Join (DefaultSyncer.scan_frames s entries res) !! k
    = match Join res !! k with
      | Some frameData => if rejoined s (JoinTimeline frameData) then None else Some frameData
      | None => None
      end
  /\ Invite (DefaultSyncer.scan_frames s entries res) !! k
     = match Join res !! k with
       | Some frameData => if rejoined s (JoinTimeline frameData) then None else Invite res !! k
       | None => Invite res !! k
       end.
Proof.
  intros Hentries.
  destruct (Join res !! k) as [frameData|] eqn:Hframe.
  - destruct (rejoined s (JoinTimeline frameData)) eqn:Hrejoined.
    + apply (scan_frames_removes s entries res k frameData); [by apply Hentries|done|].
      by rewrite Hframe.
    + rewrite <- Hframe. apply scan_frames_keeps.
      intros d Hd. apply Hentries in Hd. congruence.
  - rewrite <- Hframe. apply scan_frames_keeps.
    intros d Hd. apply Hentries in Hd. congruence.
Qed.

(** X14: for a non-empty since position, [shouldProcessResponse] answers
    true and leaves a response in which a frame of the joined bucket is
    gone exactly when some event of its timeline, the most recent or not, is
    a membership event of the syncing user with the membership "join"; the
    invited bucket loses the entries of the frames that left the joined
    bucket and no other; the left bucket and the position are as they
    were. *)
Theorem shouldProcessResponse_result
    (range : forall A : Type, gmap string A -> list (string * A)) s
    (res : RespSync) (since : string) :
  (forall (A : Type) (m : gmap string A), range A m ≡ₚ map_to_list m) ->
  since ≠ "" ->
  (DefaultSyncer.shouldProcessResponse range s res since).1 = true
  /\ Leave (DefaultSyncer.shouldProcessResponse range s res since).2 = Leave res
  /\ Resp_NextBatch (DefaultSyncer.shouldProcessResponse range s res since).2
     = Resp_NextBatch res
  /\ forall k,
       Join (DefaultSyncer.shouldProcessResponse range s res since).2 !! k
       = match Join res !! k with
         | Some frameData =>
             if rejoined s (JoinTimeline frameData) then None else Some frameData
         | None => None
         end
       /\ Invite (DefaultSyncer.shouldProcessResponse range s res since).2 !! k
          = match Join res !! k with
            | Some frameData =>
                if rejoined s (JoinTimeline frameData) then None else Invite res !! k
            | None => Invite res !! k
            end.
Proof.
  intros Hperm Hsince. rewrite (shouldProcessResponse_since _ _ _ _ Hsince). cbn [fst snd].
  destruct (scan_frames_fields s (range _ (Join res)) res) as (Hbatch & _ & _ & Hleave).
  split; [reflexivity|]. split; [exact Hleave|]. split; [exact Hbatch|].
  intros k. apply scan_frames_result.
  intros frameID frameData. by apply elem_of_range.
Qed.

(** X15: the response [shouldProcessResponse] leaves does not depend on
    the order in which [range] visits the joined bucket. *)
Theorem shouldProcessResponse_any_order
    (range1 range2 : forall A : Type, gmap string A -> list (string * A)) s
    (res : RespSync) (since : string) :
  (forall (A : Type) (m : gmap string A), range1 A m ≡ₚ map_to_list m) ->
  (forall (A : Type) (m : gmap string A), range2 A m ≡ₚ map_to_list m) ->
  DefaultSyncer.shouldProcessResponse range1 s res since
  = DefaultSyncer.shouldProcessResponse range2 s res since.
Proof.
  intros Hperm1 Hperm2. unfold DefaultSyncer.shouldProcessResponse.
  case_bool_decide; [reflexivity|]. f_equal.
  destruct (scan_frames_fields s (range1 _ (Join res)) res) as (Ha1 & Hb1 & Hc1 & Hd1).
  destruct (scan_frames_fields s (range2 _ (Join res)) res) as (Ha2 & Hb2 & Hc2 & Hd2).
  assert (Hjoin : Join (DefaultSyncer.scan_frames s (range1 _ (Join res)) res)
                  = Join (DefaultSyncer.scan_frames s (range2 _ (Join res)) res)).
  { apply map_eq. intros k.
    destruct (scan_frames_result s (range1 _ (Join res)) res k) as [-> _];
      [intros ? ?; by apply elem_of_range|].
    destruct (scan_frames_result s (range2 _ (Join res)) res k) as [-> _];
      [intros ? ?; by apply elem_of_range|]. reflexivity. }
  assert (Hinvite : Invite (DefaultSyncer.scan_frames s (range1 _ (Join res)) res)
                    = Invite (DefaultSyncer.scan_frames s (range2 _ (Join res)) res)).
  { apply map_eq. intros k.
    destruct (scan_frames_result s (range1 _ (Join res)) res k) as [_ ->];
      [intros ? ?; by apply elem_of_range|].
    destruct (scan_frames_result s (range2 _ (Join res)) res k) as [_ ->];
      [intros ? ?; by apply elem_of_range|]. reflexivity. }
  destruct (DefaultSyncer.scan_frames s (range1 _ (Join res)) res),
           (DefaultSyncer.scan_frames s (range2 _ (Join res)) res).
  cbn in *. congruence.
Qed.

End Filtering.

Lemma in_reverse_perm (A : Type) (m : gmap string A) :
  Fixture.in_reverse A m ≡ₚ map_to_list m.
Proof. unfold Fixture.in_reverse. symmetry. apply Permutation_rev. Qed.

(** The bot joined "!a" and left it in the same timeline: "!a" goes, and
    its invitation with it; "!b" and the invitation to "!c" stay. *)
Lemma shouldProcessResponse_result_witness :
  Join (DefaultSyncer.shouldProcessResponse Sample.in_order Sample.counting
          Fixture.joined_then_left "s1").2 !! "!a" = None
  /\ Invite (DefaultSyncer.shouldProcessResponse Sample.in_order Sample.counting
               Fixture.joined_then_left "s1").2 !! "!a" = None
  /\ Join (DefaultSyncer.shouldProcessResponse Sample.in_order Sample.counting
             Fixture.joined_then_left "s1").2 !! "!b"
     = Some (mkJoined [] [Sample.message] [])
  /\ Invite (DefaultSyncer.shouldProcessResponse Sample.in_order Sample.counting
               Fixture.joined_then_left "s1").2 !! "!c"
     = Some (mkInvited [Sample.member Sample.me "invite"]).
Proof.
  destruct (shouldProcessResponse_result Sample.in_order Sample.counting
              Fixture.joined_then_left "s1" in_order_perm)
    as (_ & _ & _ & Hentries); [discriminate|].
  destruct (Hentries "!a") as [Ha1 Ha2], (Hentries "!b") as [Hb _],
           (Hentries "!c") as [_ Hc].
  rewrite Ha1, Ha2, Hb, Hc. by vm_compute.
Defined.

Lemma shouldProcessResponse_any_order_witness :
  DefaultSyncer.shouldProcessResponse Sample.in_order Sample.counting
    Fixture.joined_then_left "s1"
  = DefaultSyncer.shouldProcessResponse Fixture.in_reverse Sample.counting
      Fixture.joined_then_left "s1".
Proof.
  apply (shouldProcessResponse_any_order Sample.in_order Fixture.in_reverse Sample.counting
           Fixture.joined_then_left "s1" in_order_perm in_reverse_perm).
Defined.

(** ** What the main pass does to the store *)

Section StoreInvariants.

Context {L : Type}.
Variable debug_Stack : string.
Variable range : forall A : Type, gmap string A -> list (string * A).

Implicit Types (s : DefaultSyncer.t (L := L)) (h : DefaultSyncer.heap (L := L)).
Implicit Types (P : InMemoryStore -> Prop).

Local Abbreviation on_store P :=
  (run_spec (L := L) (fun h => P (DefaultSyncer.store h)) (fun _ => True) (fun _ => True)).

Lemma kept_getOrCreateFrame P (frameID : string) :
  kept_by_steps P -> on_store P (DefaultSyncer.getOrCreateFrame frameID).
Proof.
  intros Hkept h Hh. unfold DefaultSyncer.getOrCreateFrame, InMemory.LoadFrame.
  destruct (Frames (DefaultSyncer.store h) !! frameID) as [frame|] eqn:Hframe; cbn.
  - split; [exact Hh|]. split; [by repeat constructor|done].
  - split; [|split; [by repeat constructor|done]].
    apply (Hkept frameID (DefaultSyncer.store h)); [|exact Hh].
    unfold frame_step. cbn. repeat split; try done.
    + intros k Hk. by rewrite lookup_insert_ne.
    + left. by rewrite lookup_insert_eq.
Qed.

Lemma kept_frame_UpdateState P (frameID : string) (event : Event) :
  kept_by_steps P -> FrameID event = frameID ->
  on_store P (DefaultSyncer.frame_UpdateState frameID event).
Proof.
  intros Hkept Hevent h Hh. unfold DefaultSyncer.frame_UpdateState.
  destruct (Frames (DefaultSyncer.store h) !! frameID) as [frame|] eqn:Hframe; cbn.
  - destruct (UpdateState frame event) as [r frame1] eqn:Hupdate. cbn.
    split; [|split; [by repeat constructor|done]].
    apply (Hkept frameID (DefaultSyncer.store h)); [|exact Hh].
    unfold frame_step. cbn. repeat split; try done.
    + intros k Hk. by rewrite lookup_insert_ne.
    + right. exists frame, event. rewrite lookup_insert_eq, Hupdate. by repeat split.
  - split; [exact Hh|]. split; [constructor|done].
Qed.

Lemma kept_call_from P (index : nat)
    (fns : list (DefaultSyncer.OnEventListener (L := L))) (event : Event) :
  on_store P (DefaultSyncer.call_from index fns event).
Proof.
  revert index. induction fns as [|fn fns IH]; intros index.
  - apply run_spec_ret.
  - cbn [DefaultSyncer.call_from]. apply run_spec_bind; [|intros _; apply IH].
    intros h Hh. unfold DefaultSyncer.call.
    destruct (fn event (DefaultSyncer.closures h)) as [r c]. cbn.
    split; [exact Hh|]. split; [by repeat constructor|done].
Qed.

Lemma kept_notifyListeners P s (event : Event) :
  on_store P (DefaultSyncer.notifyListeners s event).
Proof.
  unfold DefaultSyncer.notifyListeners.
  destruct (DefaultSyncer.listeners s !! Type_ event); [apply kept_call_from|].
  apply run_spec_ret.
Qed.

Lemma kept_update_and_notify P s (frameID : string) (event : Event) :
  kept_by_steps P ->
  on_store P
    (DefaultSyncer.frame_UpdateState frameID (set_FrameID frameID event) ≫= fun _ =>
     DefaultSyncer.notifyListeners s (set_FrameID frameID event)).
Proof.
  intros Hkept. apply run_spec_bind; [by apply kept_frame_UpdateState|].
  intros _. apply kept_notifyListeners.
Qed.

(** The main pass keeps every property of the store its steps keep. *)
Lemma kept_reconcile P s (res : RespSync) :
  kept_by_steps P -> on_store P (DefaultSyncer.reconcile range s res).
Proof.
  intros Hkept. unfold DefaultSyncer.reconcile.
  apply run_spec_bind; [|intros _; apply run_spec_bind; [|intros _]];
    apply run_spec_for_each; intros [frameID frameData] _.
  - unfold DefaultSyncer.process_joined.
    apply run_spec_bind; [by apply kept_getOrCreateFrame|]. intros _.
    apply run_spec_bind;
      [apply run_spec_for_each; intros event _; by apply kept_update_and_notify|].
    intros _. apply run_spec_bind; [|intros _];
      apply run_spec_for_each; intros event _; apply kept_notifyListeners.
  - unfold DefaultSyncer.process_invited.
    apply run_spec_bind; [by apply kept_getOrCreateFrame|]. intros _.
    apply run_spec_for_each; intros event _. by apply kept_update_and_notify.
  - unfold DefaultSyncer.process_left.
    apply run_spec_bind; [by apply kept_getOrCreateFrame|]. intros _.
    apply run_spec_for_each; intros event _. unfold DefaultSyncer.process_left_event.
    destruct (StateKey event); [by apply kept_update_and_notify|apply run_spec_ret].
Qed.

Lemma kept_ProcessResponse P s (res : RespSync) (since : string) h :
  kept_by_steps P ->
  P (DefaultSyncer.store h) ->
  P (DefaultSyncer.store
       (DefaultSyncer.ProcessResponse debug_Stack range s res since h).1.2).
Proof.
  intros Hkept Hh. unfold DefaultSyncer.ProcessResponse.
  destruct (DefaultSyncer.shouldProcessResponse range s res since) as [[] res1]; cbn;
    [|exact Hh].
  destruct (kept_reconcile P s res1 Hkept h Hh) as [HP _].
  unfold DefaultSyncer.recover.
  by destruct (DefaultSyncer.reconcile range s res1 h) as [[[[]|r] h1] t].
Qed.

(** X16: whatever the batch, and whether it ends in an error or not,
    [ProcessResponse] leaves the stored positions and filter identifiers as
    they were and removes no frame from the store: a frame the store held
    is still held. *)
Theorem ProcessResponse_spares_the_store s (res : RespSync) (since : string) h :
  NextBatch (DefaultSyncer.store
               (DefaultSyncer.ProcessResponse debug_Stack range s res since h).1.2)
    = NextBatch (DefaultSyncer.store h)
  /\ Filters (DefaultSyncer.store
                (DefaultSyncer.ProcessResponse debug_Stack range s res since h).1.2)
     = Filters (DefaultSyncer.store h)
  /\ forall frameID,
       is_Some (Frames (DefaultSyncer.store h) !! frameID) ->
       is_Some (Frames (DefaultSyncer.store
                          (DefaultSyncer.ProcessResponse debug_Stack range s res since h).1.2)
                  !! frameID).
Proof.
  split; [|split].
  - apply (kept_ProcessResponse
             (fun st => NextBatch st = NextBatch (DefaultSyncer.store h))); [|done].
    intros frameID st st1 (_ & Hbatch & _) Hst. congruence.
  - apply (kept_ProcessResponse
             (fun st => Filters st = Filters (DefaultSyncer.store h))); [|done].
    intros frameID st st1 (Hfilters & _) Hst. congruence.
  - intros frameID Hheld.
    apply (kept_ProcessResponse (fun st => is_Some (Frames st !! frameID))); [|done].
    intros k st st1 (_ & _ & Hothers & Hstep) Hst.
    destruct (decide (frameID = k)) as [->|Hne]; [|by rewrite Hothers].
    destruct Hstep as [[_ ->]|(frame & event & _ & _ & ->)]; by eexists.
Qed.

Lemma well_keyed_kept : kept_by_steps store_well_keyed.
Proof.
  intros k st st1 (_ & _ & Hothers & Hstep) Hst frameID frame Hframe.
  destruct (decide (frameID = k)) as [->|Hne].
  - destruct Hstep as [[_ Hnew]|(old & event & _ & Hold & Hnew)];
      rewrite Hnew in Hframe; injection Hframe as <-; [reflexivity|].
    rewrite <- (Hst k old Hold). unfold UpdateState. by destruct (StateKey event).
  - rewrite Hothers in Hframe by done. by apply Hst.
Qed.

Lemma well_formed_kept :
  kept_by_steps (fun st => forall frameID frame,
                   Frames st !! frameID = Some frame -> state_well_formed frame).
Proof.
  intros k st st1 (_ & _ & Hothers & Hstep) Hst frameID frame Hframe.
  destruct (decide (frameID = k)) as [->|Hne].
  - destruct Hstep as [[_ Hnew]|(old & event & _ & Hold & Hnew)];
      rewrite Hnew in Hframe; injection Hframe as <-.
    + apply NewFrame_well_formed.
    + apply UpdateState_well_formed. by apply (Hst k).
  - rewrite Hothers in Hframe by done. by apply (Hst frameID).
Qed.

Lemma events_tagged_kept : kept_by_steps store_events_tagged.
Proof.
  intros k st st1 (_ & _ & Hothers & Hstep) Hst frameID frame eventType stateKey stored
    Hframe Hstored.
  destruct (decide (frameID = k)) as [->|Hne].
  - destruct Hstep as [[_ Hnew]|(old & event & Hevent & Hold & Hnew)];
      rewrite Hnew in Hframe; injection Hframe as <-.
    + unfold GetStateEvent, NewFrame in Hstored. cbn in Hstored.
      by rewrite !lookup_empty in Hstored.
    + destruct (StateKey event) as [key|] eqn:Hkey.
      * rewrite (GetStateEvent_UpdateState _ _ key) in Hstored by done.
        case_decide; [by injection Hstored as <-|by apply (Hst k old eventType stateKey)].
      * rewrite GetStateEvent_UpdateState_keyless in Hstored by done.
        by apply (Hst k old eventType stateKey).
  - rewrite Hothers in Hframe by done. by apply (Hst frameID frame eventType stateKey).
Qed.

(** X17: [ProcessResponse] keeps the store sound. If every frame is held
    under its own identifier, every state table files its events under
    their own type and state key, and every stored event carries the
    identifier of its frame, then the same holds after the batch, whatever
    the batch holds and whether a listener panics or not. *)
Theorem ProcessResponse_keeps_store_sound s (res : RespSync) (since : string) h :
  store_well_keyed (DefaultSyncer.store h) ->
  (forall frameID frame,
      Frames (DefaultSyncer.store h) !! frameID = Some frame -> state_well_formed frame) ->
  store_events_tagged (DefaultSyncer.store h) ->
  let st1 :=
    DefaultSyncer.store (DefaultSyncer.ProcessResponse debug_Stack range s res since h).1.2 in
  store_well_keyed st1
  /\ (forall frameID frame, Frames st1 !! frameID = Some frame -> state_well_formed frame)
  /\ store_events_tagged st1.
Proof.
  intros Hkeyed Hformed Htagged st1. subst st1. split; [|split].
  - apply (kept_ProcessResponse store_well_keyed); [apply well_keyed_kept|done].
  - apply (kept_ProcessResponse
             (fun st => forall frameID frame,
                  Frames st !! frameID = Some frame -> state_well_formed frame));
      [apply well_formed_kept|done].
  - apply (kept_ProcessResponse store_events_tagged); [apply events_tagged_kept|done].
Qed.

End StoreInvariants.

(** A new store is sound, and so is the store after a first batch. *)
Lemma ProcessResponse_keeps_store_sound_witness :
  store_well_keyed
    (DefaultSyncer.store
       (DefaultSyncer.ProcessResponse "goroutine 1 [running]" Sample.in_order Sample.counting
          Fixture.joined_then_left "s1" Sample.empty_heap).1.2)
  /\ store_events_tagged
       (DefaultSyncer.store
          (DefaultSyncer.ProcessResponse "goroutine 1 [running]" Sample.in_order
             Sample.counting Fixture.joined_then_left "s1" Sample.empty_heap).1.2).
Proof.
  destruct (ProcessResponse_keeps_store_sound "goroutine 1 [running]" Sample.in_order
              Sample.counting Fixture.joined_then_left "s1" Sample.empty_heap)
    as (Hkeyed & _ & Htagged).
  - intros frameID frame Hframe. vm_compute in Hframe. discriminate.
  - intros frameID frame Hframe. vm_compute in Hframe. discriminate.
  - intros frameID frame eventType stateKey event Hframe. vm_compute in Hframe.
    discriminate.
  - by split.
Defined.

(** ** The effects of a joined frame, and the frames a batch creates *)

Section Runs.

Context {L : Type}.
Variable debug_Stack : string.
Variable range : forall A : Type, gmap string A -> list (string * A).
Hypothesis range_perm :
  forall (A : Type) (m : gmap string A), range A m ≡ₚ map_to_list m.

Implicit Types (s : DefaultSyncer.t (L := L)) (h : DefaultSyncer.heap (L := L)).
Implicit Types (I : DefaultSyncer.heap (L := L) -> Prop).

Local Abbreviation exec := (DefaultSyncer.exec (L := L)).

(** A loop whose passages all return, each with effects that depend on
    the element only, returns with the effects of its elements in order. *)
Lemma for_each_run {A : Type} (l : list A) (body : A -> exec unit) I
    (effects : A -> list effect) :
  (forall x, x ∈ l -> forall h, I h ->
     (body x h).1.1 = Ok tt /\ I (body x h).1.2 /\ (body x h).2 = effects x) ->
  forall h, I h ->
    (DefaultSyncer.for_each l body h).1.1 = Ok tt
    /\ I (DefaultSyncer.for_each l body h).1.2
    /\ (DefaultSyncer.for_each l body h).2 = concat (map effects l).
Proof.
  induction l as [|x l IH]; intros Hbody h Hh; [done|].
  rewrite for_each_cons, bind_run.
  destruct (Hbody x ltac:(by left) h Hh) as (Hok & HI & Heffects).
  destruct (body x h) as [[r h1] t1]. cbn in Hok, HI, Heffects. subst r t1.
  destruct (IH ltac:(intros y Hy; apply Hbody; by right) h1 HI) as (Hok & HI1 & Heffects).
  destruct (DefaultSyncer.for_each l body h1) as [[r h2] t2]. cbn in *. by subst.
Qed.

Lemma bind_returns {A B : Type} (m : exec A) (k : A -> exec B) h (a : A) :
  (m h).1.1 = Ok a ->
  (m ≫= k) h = (let '(r, h2, t2) := k a (m h).1.2 in (r, h2, (m h).2 ++ t2)).
Proof.
  intros Hok. rewrite bind_run. destruct (m h) as [[r h1] t1]. cbn in *. by subst.
Qed.

Lemma notifyListeners_run s (event : Event) h :
  listeners_return s ->
  DefaultSyncer.notifyListeners s event h
  = (Ok tt,
     {| DefaultSyncer.store := DefaultSyncer.store h;
        DefaultSyncer.closures :=
          run_listeners (default [] (DefaultSyncer.listeners s !! Type_ event)) event
            (DefaultSyncer.closures h) |},
     notify_effects s event).
Proof.
  intros Hreturn. unfold DefaultSyncer.notifyListeners, notify_effects.
  destruct (DefaultSyncer.listeners s !! Type_ event) as [fns|] eqn:Hfns; cbn.
  - apply call_from_returns. intros fn Hin c. by apply (Hreturn _ _ _ _ _ Hfns).
  - by destruct h.
Qed.

Lemma update_and_notify_run s (frameID : string) (event : Event) h :
  listeners_return s ->
  is_Some (StateKey event) ->
  is_Some (Frames (DefaultSyncer.store h) !! frameID) ->
  let run :=
    (DefaultSyncer.frame_UpdateState frameID (set_FrameID frameID event) ≫= fun _ =>
     DefaultSyncer.notifyListeners s (set_FrameID frameID event)) h in
  run.1.1 = Ok tt
  /\ is_Some (Frames (DefaultSyncer.store run.1.2) !! frameID)
  /\ run.2 = EffUpdateState frameID (set_FrameID frameID event)
               :: notify_effects s (set_FrameID frameID event).
Proof.
  intros Hreturn [key Hkey] [frame Hframe] run.
  destruct (UpdateState_clobbers frame (set_FrameID frameID event) key Hkey) as (Hok & _).
  destruct (UpdateState frame (set_FrameID frameID event)) as [r frame1] eqn:Hupdate.
  cbn in Hok. subst r.
  assert (Hrun : run
    = (Ok tt,
       {| DefaultSyncer.store :=
            {| Filters := Filters (DefaultSyncer.store h);
               NextBatch := NextBatch (DefaultSyncer.store h);
               Frames := <[frameID := frame1]> (Frames (DefaultSyncer.store h)) |};
          DefaultSyncer.closures :=
            run_listeners
              (default [] (DefaultSyncer.listeners s !! Type_ (set_FrameID frameID event)))
              (set_FrameID frameID event) (DefaultSyncer.closures h) |},
       EffUpdateState frameID (set_FrameID frameID event)
         :: notify_effects s (set_FrameID frameID event))).
  { subst run. rewrite bind_run. unfold DefaultSyncer.frame_UpdateState.
    rewrite Hframe, Hupdate. by rewrite notifyListeners_run. }
  rewrite Hrun. cbn. rewrite lookup_insert_eq. by repeat split.
Qed.

Lemma notify_run s (frameID : string) (event : Event) h :
  listeners_return s ->
  is_Some (Frames (DefaultSyncer.store h) !! frameID) ->
  (DefaultSyncer.notifyListeners s event h).1.1 = Ok tt
  /\ is_Some (Frames (DefaultSyncer.store (DefaultSyncer.notifyListeners s event h).1.2)
                !! frameID)
  /\ (DefaultSyncer.notifyListeners s event h).2 = notify_effects s event.
Proof. intros Hreturn Hheld. by rewrite notifyListeners_run. Qed.

Lemma state_events_run s (frameID : string) (events : list Event) h :
  listeners_return s ->
  Forall (fun event => is_Some (StateKey event)) events ->
  is_Some (Frames (DefaultSyncer.store h) !! frameID) ->
  let run :=
    DefaultSyncer.for_each events (fun event =>
      DefaultSyncer.frame_UpdateState frameID (set_FrameID frameID event) ≫= fun _ =>
      DefaultSyncer.notifyListeners s (set_FrameID frameID event)) h in
  run.1.1 = Ok tt
  /\ is_Some (Frames (DefaultSyncer.store run.1.2) !! frameID)
  /\ run.2 = concat (map (fun event =>
                            EffUpdateState frameID (set_FrameID frameID event)
                              :: notify_effects s (set_FrameID frameID event))
                         events).
Proof.
  intros Hreturn Hkeys Hheld.
  apply (for_each_run events _
           (fun h0 => is_Some (Frames (DefaultSyncer.store h0) !! frameID))); [|done].
  intros event Hin h0 Hh0. apply update_and_notify_run; [done| |done].
  by apply (proj1 (Forall_forall _ _) Hkeys).
Qed.

Lemma notified_run s (frameID : string) (events : list Event) h :
  listeners_return s ->
  is_Some (Frames (DefaultSyncer.store h) !! frameID) ->
  let run :=
    DefaultSyncer.for_each events (fun event =>
      DefaultSyncer.notifyListeners s (set_FrameID frameID event)) h in
  run.1.1 = Ok tt
  /\ is_Some (Frames (DefaultSyncer.store run.1.2) !! frameID)
  /\ run.2 = concat (map (fun event => notify_effects s (set_FrameID frameID event))
                         events).
Proof.
  intros Hreturn Hheld.
  apply (for_each_run events _
           (fun h0 => is_Some (Frames (DefaultSyncer.store h0) !! frameID))); [|done].
  intros event Hin h0 Hh0. by apply notify_run.
Qed.

(** X18: when no listener panics and the state events of a joined frame
    all have a state key, the frame is processed to its end, and in this
    order: the frame is loaded, and saved if it is new; each state event
    updates the state table and is notified right after, before the next
    state event; then the timeline events are notified, then the ephemeral
    events; each event goes to the listeners of its type in the order of
    their registration, and carries the identifier of the frame. *)
Theorem process_joined_effects s (frameID : string) (frameData : JoinedFrame) h :
  listeners_return s ->
  Forall (fun event => is_Some (StateKey event)) (JoinState frameData) ->
  (DefaultSyncer.process_joined s frameID frameData h).1.1 = Ok tt
  /\ (DefaultSyncer.process_joined s frameID frameData h).2
     = (DefaultSyncer.getOrCreateFrame frameID h).2
         ++ concat (map (fun event =>
                           EffUpdateState frameID (set_FrameID frameID event)
                             :: notify_effects s (set_FrameID frameID event))
                        (JoinState frameData))
         ++ concat (map (fun event => notify_effects s (set_FrameID frameID event))
                        (JoinTimeline frameData))
         ++ concat (map (fun event => notify_effects s (set_FrameID frameID event))
                        (JoinEphemeral frameData)).
Proof.
  intros Hreturn Hkeys. unfold DefaultSyncer.process_joined. cbv zeta.
  pose proof (getOrCreateFrame_holds frameID h) as Hheld.
  rewrite (bind_returns _ _ h
             (default (NewFrame frameID)
                (InMemory.LoadFrame frameID (DefaultSyncer.store h)))).
  2:{ unfold DefaultSyncer.getOrCreateFrame.
      by destruct (InMemory.LoadFrame frameID (DefaultSyncer.store h)). }
  destruct (state_events_run s frameID (JoinState frameData) _ Hreturn Hkeys Hheld)
    as (Hok1 & Hheld1 & Heff1).
  rewrite (bind_returns _ _ _ tt Hok1).
  destruct (notified_run s frameID (JoinTimeline frameData) _ Hreturn Hheld1)
    as (Hok2 & Hheld2 & Heff2).
  rewrite (bind_returns _ _ _ tt Hok2).
  destruct (notified_run s frameID (JoinEphemeral frameData) _ Hreturn Hheld2)
    as (Hok3 & _ & Heff3).
  destruct (DefaultSyncer.for_each (JoinEphemeral frameData) _ _) as [[r3 h3] t3].
  cbn in Hok3, Heff3 |- *. subst r3 t3. rewrite Heff1, Heff2. by split.
Qed.

End Runs.

Lemma counting_returns : listeners_return Sample.counting.
Proof.
  intros eventType fns fn event c Hfns Hin.
  unfold Sample.counting in Hfns. rewrite !listeners_OnEventType in Hfns.
  repeat case_decide; try discriminate; injection Hfns as <-; cbn in Hin;
    by repeat (apply elem_of_cons in Hin as [->|Hin]; [reflexivity|]);
       apply elem_of_nil in Hin.
Qed.

(** The frame [Fixture.busy], new to the store, under the callbacks that
    count membership events and messages: the typing notice has no
    listener. *)
Lemma process_joined_effects_witness :
  (DefaultSyncer.process_joined Sample.counting "!b" Fixture.busy Sample.empty_heap).2
  = [EffLoadFrame "!b"; EffSaveFrame (NewFrame "!b");
     EffUpdateState "!b" (set_FrameID "!b" (Sample.member "@alice:hs" "join"));
     EffNotify 0 (set_FrameID "!b" (Sample.member "@alice:hs" "join"));
     EffNotify 0 (set_FrameID "!b" Sample.message);
     EffNotify 0 (set_FrameID "!b" Sample.message)].
Proof.
  destruct (process_joined_effects Sample.counting "!b" Fixture.busy Sample.empty_heap
              counting_returns) as [_ Heffects].
  - repeat constructor. by eexists.
  - rewrite Heffects. by vm_compute.
Defined.

(** ** The frames a batch leaves in the store *)

Section Created.

Context {L : Type}.
Variable debug_Stack : string.
Variable range : forall A : Type, gmap string A -> list (string * A).
Hypothesis range_perm :
  forall (A : Type) (m : gmap string A), range A m ≡ₚ map_to_list m.

Implicit Types (s : DefaultSyncer.t (L := L)) (h : DefaultSyncer.heap (L := L)).

Local Abbreviation exec := (DefaultSyncer.exec (L := L)).
Local Abbreviation holds k := (fun h0 : DefaultSyncer.heap (L := L) =>
                                 is_Some (Frames (DefaultSyncer.store h0) !! k)).
Local Abbreviation keeps k := (run_spec (L := L) (holds k) (fun _ => True) (fun _ => True)).

Lemma holds_allows (k frameID : string) :
  allows (holds k) (fun _ => True) (fun _ => True) frameID.
Proof.
  repeat split; [|done]. intros h frame Hh. cbn. rewrite lookup_insert. by case_decide.
Qed.

Lemma getOrCreateFrame_returns (frameID : string) h :
  exists frame, (DefaultSyncer.getOrCreateFrame frameID h).1.1 = Ok frame.
Proof.
  unfold DefaultSyncer.getOrCreateFrame.
  destruct (InMemory.LoadFrame frameID (DefaultSyncer.store h)); by eexists.
Qed.

(** Once a frame has been fetched, what follows in the loop keeps it. *)
Lemma after_getOrCreateFrame_holds (frameID : string) (rest : Frame -> exec unit) h :
  (forall frame, keeps frameID (rest frame)) ->
  holds frameID ((DefaultSyncer.getOrCreateFrame frameID ≫= rest) h).1.2.
Proof.
  intros Hrest. destruct (getOrCreateFrame_returns frameID h) as [frame Hframe].
  rewrite (bind_returns _ _ h frame Hframe).
  destruct (Hrest frame _ (getOrCreateFrame_holds frameID h)) as [Hheld _].
  by destruct (rest frame _) as [[r h2] t2].
Qed.

Lemma process_joined_holds s (frameID : string) (frameData : JoinedFrame) h :
  holds frameID (DefaultSyncer.process_joined s frameID frameData h).1.2.
Proof.
  apply after_getOrCreateFrame_holds. intros _.
  apply run_spec_bind.
  { apply run_spec_for_each. intros event _.
    by apply update_and_notify_spec; [apply holds_allows|]. }
  intros _. apply run_spec_bind; [|intros _]; apply run_spec_for_each; intros event _;
    by apply (notifyListeners_spec _ _ _ frameID); [apply holds_allows| |].
Qed.

Lemma process_invited_holds s (frameID : string) (frameData : InvitedFrame) h :
  holds frameID (DefaultSyncer.process_invited s frameID frameData h).1.2.
Proof.
  apply after_getOrCreateFrame_holds. intros _.
  apply run_spec_for_each. intros event _.
  by apply update_and_notify_spec; [apply holds_allows|].
Qed.

Lemma process_left_holds s (frameID : string) (frameData : LeftFrame) h :
  holds frameID (DefaultSyncer.process_left s frameID frameData h).1.2.
Proof.
  apply after_getOrCreateFrame_holds. intros _.
  apply run_spec_for_each. intros event _. unfold DefaultSyncer.process_left_event.
  destruct (StateKey event); [|apply run_spec_ret].
  by apply update_and_notify_spec; [apply holds_allows|].
Qed.

(** In a loop that returns, what each passage establishes, and the other
    passages keep, holds at the end for every element. *)
Lemma for_each_establishes {A : Type} (l : list A) (body : A -> exec unit)
    (Q : A -> DefaultSyncer.heap (L := L) -> Prop) :
  (forall x h, Q x (body x h).1.2) ->
  (forall x y h, Q x h -> Q x (body y h).1.2) ->
  forall h, (DefaultSyncer.for_each l body h).1.1 = Ok tt ->
    (forall x, x ∈ l -> Q x (DefaultSyncer.for_each l body h).1.2)
    /\ forall x, Q x h -> Q x (DefaultSyncer.for_each l body h).1.2.
Proof.
  intros Hestablish Hkeep. induction l as [|y l IH]; intros h Hok.
  - split; [intros x Hx; by apply elem_of_nil in Hx|done].
  - rewrite for_each_cons, bind_run in Hok |- *.
    pose proof (Hestablish y h) as Hy. pose proof (fun x => Hkeep x y h) as Hothers.
    destruct (body y h) as [[[[]|r] h1] t1]; [|discriminate]. cbn in Hy, Hothers.
    specialize (IH h1).
    destruct (DefaultSyncer.for_each l body h1) as [[r2 h2] t2]. cbn in *.
    destruct (IH Hok) as [Hall Hstable]. split.
    + intros x Hx. apply elem_of_cons in Hx as [->|Hx]; [by apply Hstable|by apply Hall].
    + intros x Hx. by apply Hstable, Hothers.
Qed.

Lemma bind_returned {A B : Type} (m : exec A) (k : A -> exec B) h (b : B) :
  ((m ≫= k) h).1.1 = Ok b ->
  exists a, (m h).1.1 = Ok a
            /\ (k a (m h).1.2).1.1 = Ok b
            /\ ((m ≫= k) h).1.2 = (k a (m h).1.2).1.2.
Proof.
  rewrite bind_run. destruct (m h) as [[[a|r] h1] t1]; [|discriminate].
  cbn. intros Hok. exists a. destruct (k a h1) as [[r2 h2] t2]. cbn in *. by subst.
Qed.

Lemma joined_loop_holds s (entries : list (string * JoinedFrame)) h :
  (DefaultSyncer.for_each entries
     (fun '(frameID, frameData) => DefaultSyncer.process_joined s frameID frameData) h).1.1
    = Ok tt ->
  (forall k d, (k, d) ∈ entries ->
     holds k (DefaultSyncer.for_each entries
                (fun '(frameID, frameData) =>
                   DefaultSyncer.process_joined s frameID frameData) h).1.2)
  /\ forall k, holds k h ->
       holds k (DefaultSyncer.for_each entries
                  (fun '(frameID, frameData) =>
                     DefaultSyncer.process_joined s frameID frameData) h).1.2.
Proof.
  intros Hok.
  destruct (for_each_establishes entries
              (fun '(frameID, frameData) => DefaultSyncer.process_joined s frameID frameData)
              (fun entry => holds entry.1)) with (h := h) as [Hall Hkeep]; [| |done|].
  - intros [k d] h0. apply process_joined_holds.
  - intros [k d] [k1 d1] h0 Hh0.
    by apply (process_joined_spec (holds k) (fun _ => True) (fun _ => True));
      [apply holds_allows| |].
  - split; [intros k d Hin; apply (Hall (k, d) Hin)|].
    intros k. apply (Hkeep (k, mkJoined [] [] [])).
Qed.

Lemma invited_loop_holds s (entries : list (string * InvitedFrame)) h :
  (DefaultSyncer.for_each entries
     (fun '(frameID, frameData) => DefaultSyncer.process_invited s frameID frameData) h).1.1
    = Ok tt ->
  (forall k d, (k, d) ∈ entries ->
     holds k (DefaultSyncer.for_each entries
                (fun '(frameID, frameData) =>
                   DefaultSyncer.process_invited s frameID frameData) h).1.2)
  /\ forall k, holds k h ->
       holds k (DefaultSyncer.for_each entries
                  (fun '(frameID, frameData) =>
                     DefaultSyncer.process_invited s frameID frameData) h).1.2.
Proof.
  intros Hok.
  destruct (for_each_establishes entries
              (fun '(frameID, frameData) => DefaultSyncer.process_invited s frameID frameData)
              (fun entry => holds entry.1)) with (h := h) as [Hall Hkeep]; [| |done|].
  - intros [k d] h0. apply process_invited_holds.
  - intros [k d] [k1 d1] h0 Hh0.
    by apply (process_invited_spec (holds k) (fun _ => True) (fun _ => True));
      [apply holds_allows| |].
  - split; [intros k d Hin; apply (Hall (k, d) Hin)|].
    intros k. apply (Hkeep (k, mkInvited [])).
Qed.

Lemma left_loop_holds s (entries : list (string * LeftFrame)) h :
  (DefaultSyncer.for_each entries
     (fun '(frameID, frameData) => DefaultSyncer.process_left s frameID frameData) h).1.1
    = Ok tt ->
  (forall k d, (k, d) ∈ entries ->
     holds k (DefaultSyncer.for_each entries
                (fun '(frameID, frameData) =>
                   DefaultSyncer.process_left s frameID frameData) h).1.2)
  /\ forall k, holds k h ->
       holds k (DefaultSyncer.for_each entries
                  (fun '(frameID, frameData) =>
                     DefaultSyncer.process_left s frameID frameData) h).1.2.
Proof.
  intros Hok.
  destruct (for_each_establishes entries
              (fun '(frameID, frameData) => DefaultSyncer.process_left s frameID frameData)
              (fun entry => holds entry.1)) with (h := h) as [Hall Hkeep]; [| |done|].
  - intros [k d] h0. apply process_left_holds.
  - intros [k d] [k1 d1] h0 Hh0.
    by apply (process_left_spec (holds k) (fun _ => True) (fun _ => True));
      [apply holds_allows| |].
  - split; [intros k d Hin; apply (Hall (k, d) Hin)|].
    intros k. apply (Hkeep (k, mkLeft [] [])).
Qed.

(** X19: after a batch that [ProcessResponse] has processed without
    error, the store holds a frame for every frame of the three buckets, as
    the filter left them: a frame is created at its first sight in a
    batch. *)
Theorem ProcessResponse_creates_frames s (res : RespSync) (since : string) h
    (frameID : string) :
  since ≠ "" ->
  (DefaultSyncer.ProcessResponse debug_Stack range s res since h).1.1 = Ok None ->
  is_Some (Join (DefaultSyncer.shouldProcessResponse range s res since).2 !! frameID)
  \/ is_Some (Invite (DefaultSyncer.shouldProcessResponse range s res since).2 !! frameID)
  \/ is_Some (Leave (DefaultSyncer.shouldProcessResponse range s res since).2 !! frameID) ->
  is_Some (Frames (DefaultSyncer.store
                     (DefaultSyncer.ProcessResponse debug_Stack range s res since h).1.2)
             !! frameID).
Proof.
  intros Hsince. unfold DefaultSyncer.ProcessResponse.
  rewrite (shouldProcessResponse_since _ _ _ _ Hsince). cbn [fst snd negb].
  set (res1 := DefaultSyncer.scan_frames s (range _ (Join res)) res).
  unfold DefaultSyncer.recover.
  destruct (DefaultSyncer.reconcile range s res1 h) as [[[[]|r] h3] t] eqn:Hrun;
    [|discriminate].
  intros _ Hbucket. cbn.
  assert (Hok : (DefaultSyncer.reconcile range s res1 h).1.1 = Ok tt) by (by rewrite Hrun).
  assert (Hend : (DefaultSyncer.reconcile range s res1 h).1.2 = h3) by (by rewrite Hrun).
  unfold DefaultSyncer.reconcile in Hok, Hend.
  apply bind_returned in Hok as ([] & Hjoined & Hok & Hend1). rewrite Hend1 in Hend.
  apply bind_returned in Hok as ([] & Hinvited & Hleft & Hend2). rewrite Hend2 in Hend.
  clear Hend1 Hend2 Hrun.
  destruct (joined_loop_holds s _ _ Hjoined) as [Hjoin _].
  destruct (invited_loop_holds s _ _ Hinvited) as [Hinvite Hinvite_keeps].
  destruct (left_loop_holds s _ _ Hleft) as [Hleave Hleave_keeps].
  rewrite <- Hend.
  destruct Hbucket as [[d Hd]|[[d Hd]|[d Hd]]].
  - apply Hleave_keeps, Hinvite_keeps, (Hjoin frameID d). by apply elem_of_range.
  - apply Hleave_keeps, (Hinvite frameID d). by apply elem_of_range.
  - apply (Hleave frameID d). by apply elem_of_range.
Qed.

End Created.

Lemma ProcessResponse_creates_frames_witness :
  is_Some (Frames (DefaultSyncer.store
                     (DefaultSyncer.ProcessResponse "goroutine 1 [running]" Sample.in_order
                        Sample.counting Fixture.joined_then_left "s1"
                        Sample.empty_heap).1.2) !! "!c").
Proof.
  apply (ProcessResponse_creates_frames "goroutine 1 [running]" Sample.in_order
           in_order_perm Sample.counting Fixture.joined_then_left "s1" Sample.empty_heap
           "!c").
  - discriminate.
  - by vm_compute.
  - right. left. vm_compute. by eexists.
Defined.
